(** * BrainFucking Gone: a shallow embedding of [src/bfg.py]

    The interpreter is one Python object whose methods mutate its
    attributes.  It is embedded as a record [bfg] of those attributes,
    threaded explicitly through every method; the two external streams
    (the lines [input()] can still deliver, and everything printed so far)
    are two more fields of the record.  A method that can raise returns a
    [result].  A Python [str] is the list of its code points. *)

From Stdlib Require Import ZArith Ascii String Lia.
From stdpp Require Import gmap strings list.

Local Open Scope string_scope.
Local Open Scope Z_scope.

(** ** Characters and strings *)

(** The code point of an ASCII literal, and the [str] of a literal text. *)
Definition sym (c : ascii) : Z := Z.of_N (N_of_ascii c).
Definition text (s : string) : list Z := sym <$> list_ascii_of_string s.

(** ** Exceptions and results *)

(** The two messages of [BrainFuckingGoneError], kept structured: the
    arguments handed to [format] rather than the formatted text. *)
Inductive bfg_error : Type :=
| Dangling (symbol : option Z) (pos : Z)
    (* "Syntax error: dangling '{}' at position {}." *)
| Segfault (pos : Z) (symbol : option Z) (why : string).
    (* errmsg.format("Segfault", pc, instruction, why) *)

Inductive exn : Type :=
| BrainFuckingGoneError (e : bfg_error)
| IndexError
| TypeError
| ValueError.

Inductive result (A : Type) : Type :=
| Ok (a : A)
| Raise (e : exn).
Arguments Ok {A} a.
Arguments Raise {A} e.

#[global] Instance result_ret : MRet result := λ A a, Ok a.
#[global] Instance result_bind : MBind result := λ A B f m,
  match m with
  | Ok a => f a
  | Raise e => Raise e
  end.

(** ** What the interpreter prints *)

Inductive event : Type :=
| Prompt (p : string)                       (* input(prompt) *)
| Print (c : Z) (newline : bool)            (* print(output, end=...) *)
| TraceStep (at_pc : Z) (symbol : Z) (ptr v : Z)
    (* "PC: {:3} ('{}'), PTR: *({:2}) = {:3}" *)
| Report (instructions steps bytes : Z).
    (* "Done with: {} instructions, {} steps, {} bytes" *)

(** ** Python indexing *)

(** [seq[i]]: a negative index counts from the end, anything else out of
    range raises [IndexError]. *)
Definition py_index (len i : Z) : result nat :=
  let j := if i <? 0 then i + len else i in
  if (0 <=? j) && (j <? len) then Ok (Z.to_nat j) else Raise IndexError.

Definition str_index (s : list Z) (i : Z) : result Z :=
  n ← py_index (Z.of_nat (length s)) i;
  match s !! n with
  | Some c => Ok c
  | None => Raise IndexError
  end.

Definition list_index (l : list Z) (i : Z) : result Z :=
  n ← py_index (Z.of_nat (length l)) i;
  match l !! n with
  | Some v => Ok v
  | None => Raise IndexError
  end.

Definition list_assign (l : list Z) (i v : Z) : result (list Z) :=
  n ← py_index (Z.of_nat (length l)) i;
  Ok (<[n := v]> l).

(** [s[1:]] *)
Definition str_tail (s : list Z) : list Z :=
  match s with
  | [] => []
  | _ :: r => r
  end.

(** [range(start, stop, step)] *)
Definition range (start stop step : Z) : list Z :=
  if 0 <? step then
    (λ k, start + Z.of_nat k * step) <$> seq 0 (Z.to_nat ((stop - start + step - 1) / step))
  else if step <? 0 then
    (λ k, start + Z.of_nat k * step) <$> seq 0 (Z.to_nat ((start - stop - step - 1) / (- step)))
  else [].

(** [chr(v)] as the code point it denotes. *)
Definition chr (v : Z) : result Z :=
  if (0 <=? v) && (v <=? 1114111) then Ok v else Raise ValueError.

(** [ord(s)]: the code point of a one-character [str]. *)
Definition ord (s : list Z) : result Z :=
  match s with
  | [c] => Ok c
  | _ => Raise TypeError
  end.

(** ** The interpreter object *)

Record bfg : Type := Bfg {
  count  : Z;
  stdout : option (list Z);     (* None, or the delayed output *)
  remain : option (list Z);
  ins    : option (list Z);
  inslen : Z;
  keep   : bool;
  strict : bool;
  debug  : bool;
  buf    : option (list Z);
  loops  : gmap Z Z;
  sr     : Z;
  pc     : Z;
  mem    : list Z;
  memlen : Z;
  stdin  : list (list Z);       (* lines still to come; [] is end of stream *)
  trace  : list event           (* printed so far, oldest first *)
}.

Definition memmax : Z := 30 * 1000.
Definition minmax : Z * Z := (0, 255).

Definition set_count (v : Z) (s : bfg) : bfg :=
  Bfg v (stdout s) (remain s) (ins s) (inslen s) (keep s) (strict s) (debug s)
      (buf s) (loops s) (sr s) (pc s) (mem s) (memlen s) (stdin s) (trace s).
Definition set_stdout (v : option (list Z)) (s : bfg) : bfg :=
  Bfg (count s) v (remain s) (ins s) (inslen s) (keep s) (strict s) (debug s)
      (buf s) (loops s) (sr s) (pc s) (mem s) (memlen s) (stdin s) (trace s).
Definition set_remain (v : option (list Z)) (s : bfg) : bfg :=
  Bfg (count s) (stdout s) v (ins s) (inslen s) (keep s) (strict s) (debug s)
      (buf s) (loops s) (sr s) (pc s) (mem s) (memlen s) (stdin s) (trace s).
Definition set_ins (v : option (list Z)) (s : bfg) : bfg :=
  Bfg (count s) (stdout s) (remain s) v (inslen s) (keep s) (strict s) (debug s)
      (buf s) (loops s) (sr s) (pc s) (mem s) (memlen s) (stdin s) (trace s).
Definition set_inslen (v : Z) (s : bfg) : bfg :=
  Bfg (count s) (stdout s) (remain s) (ins s) v (keep s) (strict s) (debug s)
      (buf s) (loops s) (sr s) (pc s) (mem s) (memlen s) (stdin s) (trace s).
Definition set_buf (v : option (list Z)) (s : bfg) : bfg :=
  Bfg (count s) (stdout s) (remain s) (ins s) (inslen s) (keep s) (strict s) (debug s)
      v (loops s) (sr s) (pc s) (mem s) (memlen s) (stdin s) (trace s).
Definition set_loops (v : gmap Z Z) (s : bfg) : bfg :=
  Bfg (count s) (stdout s) (remain s) (ins s) (inslen s) (keep s) (strict s) (debug s)
      (buf s) v (sr s) (pc s) (mem s) (memlen s) (stdin s) (trace s).
Definition set_sr (v : Z) (s : bfg) : bfg :=
  Bfg (count s) (stdout s) (remain s) (ins s) (inslen s) (keep s) (strict s) (debug s)
      (buf s) (loops s) v (pc s) (mem s) (memlen s) (stdin s) (trace s).
Definition set_pc (v : Z) (s : bfg) : bfg :=
  Bfg (count s) (stdout s) (remain s) (ins s) (inslen s) (keep s) (strict s) (debug s)
      (buf s) (loops s) (sr s) v (mem s) (memlen s) (stdin s) (trace s).
Definition set_mem (v : list Z) (s : bfg) : bfg :=
  Bfg (count s) (stdout s) (remain s) (ins s) (inslen s) (keep s) (strict s) (debug s)
      (buf s) (loops s) (sr s) (pc s) v (memlen s) (stdin s) (trace s).
Definition set_memlen (v : Z) (s : bfg) : bfg :=
  Bfg (count s) (stdout s) (remain s) (ins s) (inslen s) (keep s) (strict s) (debug s)
      (buf s) (loops s) (sr s) (pc s) (mem s) v (stdin s) (trace s).
Definition set_stdin (v : list (list Z)) (s : bfg) : bfg :=
  Bfg (count s) (stdout s) (remain s) (ins s) (inslen s) (keep s) (strict s) (debug s)
      (buf s) (loops s) (sr s) (pc s) (mem s) (memlen s) v (trace s).

Definition set_flags (k st d : bool) (s : bfg) : bfg :=
  Bfg (count s) (stdout s) (remain s) (ins s) (inslen s) k st d
      (buf s) (loops s) (sr s) (pc s) (mem s) (memlen s) (stdin s) (trace s).

(** [print(...)]: one more event at the end of the log. *)
Definition emit (e : event) (s : bfg) : bfg :=
  Bfg (count s) (stdout s) (remain s) (ins s) (inslen s) (keep s) (strict s) (debug s)
      (buf s) (loops s) (sr s) (pc s) (mem s) (memlen s) (stdin s) (trace s ++ [e]).

(** [input(prompt)]: the prompt is written, then a line is taken from the
    stream; [None] stands for [EOFError]. *)
Definition input (prompt : option string) (s : bfg) : option (list Z) * bfg :=
  let s1 := match prompt with Some p => emit (Prompt p) s | None => s end in
  match stdin s1 with
  | [] => (None, s1)
  | line :: rest => (Some line, set_stdin rest s1)
  end.

(** ** Methods *)

(** [reset(force)] *)
Definition reset (force : bool) (s : bfg) : bfg :=
  let s := set_buf None s in
  if force || negb (keep s) then
    let s := set_count 0 s in
    let s := set_ins None s in
    let s := set_loops ∅ s in
    let s := set_sr 0 s in
    let s := set_pc 0 s in
    let s := set_mem (replicate (Z.to_nat (if negb (strict s) then 1 else memmax)) 0) s in
    let s := set_inslen 0 s in
    set_memlen (if strict s then memmax else Z.of_nat (length (mem s))) s
  else s.

(** [instruction(pc)]: the argument is used only when it is truthy, so
    both [None] and [0] stand for the current program counter. *)
Definition instruction (arg : option Z) (s : bfg) : result (option Z) :=
  let p := match arg with
           | Some i => if i =? 0 then pc s else i
           | None => pc s
           end in
  if p <? inslen s then
    match ins s with
    | Some prog => c ← str_index prog p; Ok (Some c)
    | None => Raise TypeError
    end
  else Ok None.

(** [jump(to)] *)
Definition jump (to : option Z) (s : bfg) : bool * bfg :=
  let s := set_pc (match to with Some t => t | None => pc s + 1 end) s in
  (pc s <? inslen s, s).

(** [value()] and [value(v)] *)
Definition value (s : bfg) : result Z := list_index (mem s) (sr s).

Definition value_set (v : Z) (s : bfg) : result bfg :=
  m ← list_assign (mem s) (sr s) v; Ok (set_mem m s).

(** [dbg(report)] *)
Definition dbg (report : bool) (s : bfg) : result bfg :=
  let s := set_count (count s + 1) s in
  if debug s then
    if report then Ok (emit (Report (inslen s) (count s) (memlen s)) s)
    else
      i ← instruction None s;
      match i with
      | Some _ =>
          p ← instruction None s;
          v ← value s;
          match p with
          | Some c => Ok (emit (TraceStep (pc s) c (sr s) v) s)
          | None => Ok s
          end
      | None => Ok s
      end
  else Ok s.

(** ** The language table *)

Inductive handler : Type := Hloop | Hptr | Hbyte | Hinout | HignoreUntil.

(** [self.lang[...]["left"]] and [["right"]] *)
Definition lang_left (h : handler) : Z :=
  sym match h with
      | Hloop => "["
      | Hptr => "<"
      | Hbyte => "-"
      | Hinout => ","
      | HignoreUntil => "#"
      end.

Definition lang_right (h : handler) : Z :=
  sym match h with
      | Hloop => "]"
      | Hptr => ">"
      | Hbyte => "+"
      | Hinout => "."
      | HignoreUntil => "010"
      end.

(** [self.action.get(symbol)] *)
Definition action (symbol : option Z) : option handler :=
  match symbol with
  | None => None
  | Some c =>
      snd <$> list_find (λ h, c = lang_left h ∨ c = lang_right h)
                        [Hloop; Hptr; Hbyte; Hinout; HignoreUntil]
  end.

(** ** Loops *)

(** The [for] loop of [registerLoop]: [Ok None] when the range is used up
    without a [break]. *)
Fixpoint scan (char : Z) (cnt : Z) (l : list Z) (s : bfg) : result (option Z) :=
  match l with
  | [] => Ok None
  | i :: l =>
      a ← instruction (Some i) s;
      cur ← instruction None s;
      if bool_decide (a = cur) then scan char (cnt + 1) l s
      else
        b ← instruction (Some i) s;
        if bool_decide (b = Some char) then
          if 0 <? cnt then scan char (cnt - 1) l s else Ok (Some i)
        else scan char cnt l s
  end.

Definition registerLoop (s : bfg) : result bfg :=
  cur ← instruction None s;
  let isEnd := bool_decide (cur = Some (lang_right Hloop)) in
  let char := if isEnd then lang_left Hloop else lang_right Hloop in
  let start := pc s + 1 in
  let end_ := if isEnd then 0 else inslen s in
  let step := if isEnd then -1 else 1 in
  sibling ← scan char 0 (range start end_ step) s;
  match sibling with
  | None =>
      symbol ← instruction None s;
      Raise (BrainFuckingGoneError (Dangling symbol (pc s)))
  | Some sib => Ok (set_loops (<[sib := pc s]> (<[pc s := sib]> (loops s))) s)
  end.

Definition loop (s : bfg) : result bfg :=
  s ← (match loops s !! pc s with
       | None => registerLoop s
       | Some _ => Ok s
       end);
  v ← value s;
  cur ← instruction None s;
  if negb (xorb (negb (v =? 0)) (bool_decide (cur = Some (lang_right Hloop))))
  then Ok (jump (loops s !! pc s) s).2
  else Ok s.

(** ** Tape *)

Definition segflt (s : bfg) : result bfg :=
  if memlen s <=? sr s then
    if strict s then
      symbol ← instruction None s;
      Raise (BrainFuckingGoneError
               (Segfault (pc s) symbol "data pointer value above the maximum (strict mode: on)"))
    else Ok (set_memlen (memlen s + 1) (set_mem (mem s ++ [0]) s))
  else if sr s <? 0 then
    symbol ← instruction None s;
    Raise (BrainFuckingGoneError (Segfault (pc s) symbol "negative data pointer value"))
  else Ok s.

Definition ptr (s : bfg) : result bfg :=
  cur ← instruction None s;
  s ← (if bool_decide (cur = Some (lang_left Hptr)) then Ok (set_sr (sr s - 1) s)
       else
         cur ← instruction None s;
         if bool_decide (cur = Some (lang_right Hptr)) then Ok (set_sr (sr s + 1) s)
         else Ok s);
  segflt s.

Definition byte (s : bfg) : result bfg :=
  newValue ← value s;
  cur ← instruction None s;
  newValue ← (if bool_decide (cur = Some (lang_left Hbyte)) then Ok (newValue - 1)
              else
                cur ← instruction None s;
                if bool_decide (cur = Some (lang_right Hbyte)) then Ok (newValue + 1)
                else Ok newValue);
  let newValue :=
    if newValue <? minmax.1 then minmax.2 - Z.abs newValue + 1
    else if minmax.2 <? newValue then minmax.1 + Z.abs newValue - 1
    else newValue in
  value_set newValue s.

(** ** Input and output *)

(** The branch of [inp] taken when [self.remain] is a string. *)
Definition inp_remain (r : list Z) (s : bfg) : result (bool * bfg) :=
  c ← str_index r 0;
  let s := set_buf (Some [c]) s in
  let s := set_remain (Some (str_tail r)) s in
  let s := if Z.of_nat (length (str_tail r)) =? 0 then set_remain None s else s in
  Ok (true, s).

(** [inp(prompt, isInstruction)].  [EOFError] is the only exception caught.
    The recursive call [self.inp()] is made right after [self.remain] has
    received a line, so it takes the [remain] branch: it is unfolded here. *)
Definition inp (prompt : string) (isInstruction : bool) (s : bfg) : result (bool * bfg) :=
  if isInstruction then
    match input (Some prompt) s with
    | (Some line, s) => Ok (true, set_buf (Some line) s)
    | (None, s) => Ok (false, s)
    end
  else
    match remain s with
    | Some r => inp_remain r s
    | None =>
        match input None s with
        | (Some line, s) => inp_remain line (set_remain (Some line) s)
        | (None, s) => Ok (false, s)
        end
    end.

(** [inout()]: [true] when the program must stop. *)
Definition inout (s : bfg) : result (bool * bfg) :=
  cur ← instruction None s;
  if bool_decide (cur = Some (lang_right Hinout)) then
    v ← value s;
    output ← chr v;
    match debug s, stdout s with
    | true, Some acc => Ok (false, set_stdout (Some (acc ++ [output])%list) s)
    | _, _ => Ok (false, emit (Print output (debug s)) s)
    end
  else
    cur ← instruction None s;
    if bool_decide (cur = Some (lang_left Hinout)) then
      '(got, s) ← inp (String "010" "?> ") false s;
      if negb got then Ok (true, s)
      else
        match buf s with
        | Some b =>
            c ← ord b;
            s ← value_set c s;
            Ok (false, set_buf None s)
        | None => Raise TypeError
        end
    else Ok (false, s).

(** ** Comments *)

(** The [while] loop of [ignoreUntil], on a bound of iterations. *)
Fixpoint ignoreUntil_loop (n : nat) (until : Z) (s : bfg) : result bfg :=
  match n with
  | O => Ok s
  | S n =>
      cur ← instruction None s;
      if bool_decide (cur ≠ Some until) then
        let '(more, s) := jump None s in
        if more then ignoreUntil_loop n until s else Ok s
      else Ok s
  end.

(** Every iteration but the last leaves [pc < inslen] one step further,
    so [inslen - pc] iterations and one more are all the loop can make
    (see [ignoreUntil_loop_bound]). *)
Definition ignoreUntil (until : option Z) (s : bfg) : result bfg :=
  let until := default (lang_right HignoreUntil) until in
  ignoreUntil_loop (S (Z.to_nat (inslen s - pc s))) until s.

(** ** Dispatch *)

Definition call (h : handler) (s : bfg) : result (bool * bfg) :=
  match h with
  | Hloop => s ← loop s; Ok (false, s)
  | Hptr => s ← ptr s; Ok (false, s)
  | Hbyte => s ← byte s; Ok (false, s)
  | Hinout => inout s
  | HignoreUntil => s ← ignoreUntil None s; Ok (false, s)
  end.

Definition translate (s : bfg) : result (bool * bfg) :=
  cur ← instruction None s;
  match action cur with
  | Some h => call h s
  | None => Ok (false, s)
  end.

(** One evaluation of the condition of the [while(True)] loop of [execute],
    [self.translate() or self.dbg() or not self.jump()]: [true] when the
    loop breaks. *)
Definition step (s : bfg) : result (bool * bfg) :=
  '(stop, s) ← translate s;
  if (stop : bool) then Ok (true, s)
  else
    s ← dbg false s;
    let '(more, s) := jump None s in
    Ok (negb more, s).

(** The loop itself; [None] when the fuel runs out before it breaks. *)
Fixpoint execute_loop (fuel : nat) (s : bfg) : option (result bfg) :=
  match fuel with
  | O => None
  | S fuel =>
      match step s with
      | Raise e => Some (Raise e)
      | Ok (true, s) => Some (Ok s)
      | Ok (false, s) => execute_loop fuel s
      end
  end.

Definition execute (shell : bool) (fuel : nat) (s : bfg) : option (result bfg) :=
  r ← execute_loop fuel s;
  Some (s ← r;
        s ← (if negb shell then dbg true s else Ok s);
        Ok (reset false s)).

(** ** Sessions *)

(** [shell()] *)
Definition shell (s : bfg) : result (option (list Z) * bfg) :=
  '(got, s) ← inp " > " true s;
  if (got : bool) then
    let prog := (default [] (ins s) ++ default [] (buf s))%list in
    let s := set_inslen (inslen s + Z.of_nat (length (default [] (buf s)))) s in
    Ok (Some prog, set_buf None s)
  else Ok (None, s).

(** [__init__()], with the lines the external source will deliver.  The
    attributes that only [reset] creates hold placeholders until then. *)
Definition init (lines : list (list Z)) : bfg :=
  Bfg 0 None None None 0 false false false None ∅ 0 0 [] 0 lines [].

(** The start of [run]: the flags, [reset(True)] and the empty program.
    [shell_mode] is [not files or len(files) == 0]. *)
Definition run_setup (shell_mode persistent debug_ strict_ : bool) (s : bfg) : bfg :=
  let d := debug_ || shell_mode in
  let s := set_flags (persistent || shell_mode) strict_ d s in
  let s := set_stdout (if negb d || shell_mode then None else Some []) s in
  let s := reset true s in
  set_ins (Some []) s.

(** One turn of the loop of [run] on files: [prog] is the text [script]
    extracts from them (reading and stripping the files is left outside);
    [script] stores its length, [run] stores the text and executes it. *)
Definition load (prog : list Z) (s : bfg) : bfg :=
  let s := set_inslen (Z.of_nat (length prog)) s in
  set_ins (Some prog) s.

Definition run_script (prog : list Z) (fuel : nat) (s : bfg) : option (result bfg) :=
  execute false fuel (load prog s).

(** One turn of the loop of [run] in the shell. *)
Definition run_shell_line (fuel : nat) (s : bfg) : option (result bfg) :=
  match shell s with
  | Raise e => Some (Raise e)
  | Ok (prog, s) =>
      let s := set_ins prog s in
      match prog with
      | Some _ => execute false fuel s
      | None => Some (Ok s)
      end
  end.

(** [n] turns of that loop. *)
Fixpoint run_shell (n : nat) (fuel : nat) (s : bfg) : option (result bfg) :=
  match n with
  | O => Some (Ok s)
  | S n =>
      match run_shell_line fuel s with
      | Some (Ok s) => run_shell n fuel s
      | r => r
      end
  end.

(** The characters written by output instructions, in order. *)
Definition printed (s : bfg) : list Z :=
  omap (λ e, match e with Print c _ => Some c | _ => None end) (trace s).

(** ** Predicates of the statements *)

(** The tape is well formed: the pointer is inside it and [memlen] is its
    length. *)
Definition tape_ok (s : bfg) : Prop :=
  0 ≤ sr s < Z.of_nat (length (mem s)) ∧ memlen s = Z.of_nat (length (mem s)).

(** Two states with the same tape and the same bounds policy. *)
Definition same_tape (s t : bfg) : Prop :=
  mem t = mem s ∧ sr t = sr s ∧ memlen t = memlen s ∧ strict t = strict s.

Definition is_ptr_move (s : bfg) : Prop :=
  instruction None s = Ok (Some (lang_left Hptr)) ∨ instruction None s = Ok (Some (lang_right Hptr)).

(** A sequence of pointer moves that do not raise; between two of them the
    interpreter may do anything that leaves the tape alone (trace, program
    counter, a longer program). *)
Inductive ptr_run : bfg → bfg → Prop :=
| ptr_run_refl s t : same_tape s t → ptr_run s t
| ptr_run_move s s1 s2 t :
    is_ptr_move s → ptr s = Ok s1 → same_tape s1 s2 → ptr_run s2 t → ptr_run s t.

(** The loop table maps [b] back to [a] whenever it maps [a] to [b]. *)
Definition symmetric (m : gmap Z Z) : Prop :=
  ∀ a b : Z, m !! a = Some b → m !! b = Some a.

(** What [dbg(True)] leaves behind. *)
Definition reported (s : bfg) : bfg :=
  let s := set_count (count s + 1) s in
  if debug s then emit (Report (inslen s) (count s) (memlen s)) s else s.

(** The wraparound as the specification words it, on the value after the
    increment or decrement: below 0 it becomes [255 − |newValue| + 1], above
    255 it becomes [0 + |newValue| − 1]. *)
Definition spec_wrap (newValue : Z) : Z :=
  if newValue <? 0 then 255 - Z.abs newValue + 1
  else if 255 <? newValue then 0 + Z.abs newValue - 1
  else newValue.

(** The interpreter as [run] leaves it before the first program: lazy tape,
    no trace. *)
Definition fresh : bfg := run_setup false false false false (init []).

(** Sample states. *)
Definition on_minus : bfg := load (text "-") fresh.
Definition on_plus_at_255 : bfg := set_mem [255] (load (text "+") fresh).
Definition on_closing_resolved : bfg :=
  set_loops (<[0 := 1]> {[ 1 := 0 ]}) (set_pc 1 (set_mem [3] (load (text "[]") fresh))).
Definition on_b_of_ab : bfg := set_pc 1 (load (text "ab") fresh).
Definition on_closing_first : bfg := load (text "][") fresh.
Definition on_right : bfg := load (text ">") fresh.
Definition on_comma_traced : bfg := set_flags false false true (load (text ",") fresh).
Definition on_comma_empty_line : bfg :=
  set_stdin [text ""; text "A"] (load (text ",") fresh).
Definition shell_start (lines : list string) : bfg :=
  run_setup true false false false (init (text <$> lines)).

(** ** Script files *)

(** The characters [str.strip()] removes, those [str.isspace()] accepts:
    tab to carriage return, the four separators 28 to 31, the space, NEL,
    the no-break space, the Ogham space mark, the spaces U+2000 to U+200A,
    the line and paragraph separators, the narrow no-break space, the
    medium mathematical space and the ideographic space. *)
Definition is_space (c : Z) : bool :=
  ((9 <=? c) && (c <=? 13)) || ((28 <=? c) && (c <=? 32)) || (c =? 133) || (c =? 160)
  || (c =? 5760) || ((8192 <=? c) && (c <=? 8202)) || (c =? 8232) || (c =? 8233)
  || (c =? 8239) || (c =? 8287) || (c =? 12288).

Fixpoint lstrip (l : list Z) : list Z :=
  match l with
  | [] => []
  | c :: r => if is_space c then lstrip r else l
  end.

Fixpoint rstrip (l : list Z) : list Z :=
  match l with
  | [] => []
  | c :: r =>
      match rstrip r with
      | [] => if is_space c then [] else [c]
      | r' => c :: r'
      end
  end.

(** [l.strip()] *)
Definition strip (l : list Z) : list Z := rstrip (lstrip l).

(** [l.split(sep)[0]] for a one-character separator *)
Fixpoint split_first (sep : Z) (l : list Z) : list Z :=
  match l with
  | [] => []
  | c :: r => if bool_decide (c = sep) then [] else c :: split_first sep r
  end.

(** [l.startswith(c)] for a one-character prefix *)
Definition startswith (c : Z) (l : list Z) : bool :=
  match l with
  | d :: _ => bool_decide (d = c)
  | [] => false
  end.

(** ["".join(pieces)] *)
Definition join (pieces : list (list Z)) : list Z :=
  foldr app [] pieces.

(** The text [script] takes from one file, given the lines [readlines()]
    returns for it. *)
Definition file_text (lines : list (list Z)) : list Z :=
  join ((λ l, split_first (lang_left HignoreUntil) (strip l))
          <$> filter (λ l, startswith (lang_left HignoreUntil) l = false) lines).

(** [script(paths)]: every path stands for the lines of its file (opening
    and reading the files is left outside). *)
Definition script (paths : option (list (list (list Z)))) (s : bfg)
  : option (list Z) * bfg :=
  match paths with
  | Some ((_ :: _) as paths) =>
      let paths := if negb (keep s) then take 1 paths else paths in
      let prog := foldl (λ prog p, (prog ++ file_text p)%list) [] paths in
      (Some prog, set_inslen (Z.of_nat (length prog)) s)
  | _ => (None, s)
  end.

(** One turn of the loop of [run] on files; the files left for the next
    turn come with the result. *)
Definition run_files (files : list (list (list Z))) (fuel : nat) (s : bfg)
  : option (result bfg) * list (list (list Z)) :=
  let '(prog, s) := script (Some files) s in
  let s := set_ins prog s in
  (match prog with
   | Some _ => execute false fuel s
   | None => Some (Ok s)
   end, drop 1 files).

(** ** More predicates *)

#[global] Instance bfg_error_eq_dec : EqDecision bfg_error.
Proof. solve_decision. Defined.
#[global] Instance exn_eq_dec : EqDecision exn.
Proof. solve_decision. Defined.
#[global] Instance result_eq_dec {A} `{EqDecision A} : EqDecision (result A).
Proof. solve_decision. Defined.

(** The program text and its length agree, and the program counter is not
    negative. *)
Definition prog_ok (prog : list Z) (s : bfg) : Prop :=
  ins s = Some prog ∧ inslen s = Z.of_nat (length prog) ∧ 0 ≤ pc s.

(** The symbol [c] occurs in [l]. *)
Definition occurs (c : Z) (l : list Z) : Prop := c ∈ l.

(** How many of the positions [l] hold the symbol [c]. *)
Definition count_sym (c : Z) (l : list Z) (s : bfg) : nat :=
  length (filter (λ i, instruction (Some i) s = Ok (Some c)) l).

(** Everything a step leaves alone: the flags and the program. *)
Definition same_program (s t : bfg) : Prop :=
  keep t = keep s ∧ strict t = strict s ∧ debug t = debug s
  ∧ ins t = ins s ∧ inslen t = inslen s.

(** All cells are bytes. *)
Definition cells_ok (s : bfg) : Prop := Forall (λ v, 0 ≤ v ≤ 255) (mem s).

(** More sample states. *)
Definition on_right_strict_end : bfg :=
  set_flags false true false (set_memlen 2 (set_mem [0; 0] (set_sr 1 on_right))).

Definition on_minus_plus : bfg := load (text "-+") fresh.
Definition after_minus : bfg := set_mem [255] on_minus_plus.
Definition after_minus_plus : bfg := set_mem [255] (set_pc 1 on_minus_plus).

Definition on_comma_line_euro : bfg := set_stdin [[8364; 66]] (load (text ",,") fresh).

Definition traced_plus_dot : bfg :=
  load (text "+.") (run_setup false false true false (init [])).

(** * Properties *)

(** Comparisons of symbols that are both known. *)
Ltac decide_syms :=
  repeat match goal with
         | |- context [bool_decide ?P] =>
             let b := eval vm_compute in (bool_decide P) in
             change (bool_decide P) with b
         end;
  cbv beta iota.

(** The code points of the literals in sight. *)
Ltac eval_syms :=
  repeat match goal with
         | |- context [lang_left ?h] =>
             is_constructor h;
             let v := eval vm_compute in (lang_left h) in change (lang_left h) with v
         | |- context [lang_right ?h] =>
             is_constructor h;
             let v := eval vm_compute in (lang_right h) in change (lang_right h) with v
         | |- context [sym ?c] =>
             let v := eval vm_compute in (sym c) in change (sym c) with v
         | H : context [sym ?c] |- _ =>
             let v := eval vm_compute in (sym c) in change (sym c) with v in H
         end.

(** ** The result monad *)

Lemma bind_Ok {A B} (f : A → result B) (a : A) : Ok a ≫= f = f a.
Proof. reflexivity. Qed.

Lemma bind_Raise {A B} (f : A → result B) (e : exn) : Raise e ≫= f = Raise e.
Proof. reflexivity. Qed.

Lemma bind_inv_Ok {A B} (f : A → result B) (m : result A) (b : B) :
  m ≫= f = Ok b → ∃ a, m = Ok a ∧ f a = Ok b.
Proof. destruct m as [a|e]; [eauto | discriminate]. Qed.

(** ** Reading and writing the current cell *)

Lemma py_index_inv (len i : Z) (n : nat) :
  py_index len i = Ok n → (n < Z.to_nat len)%nat.
Proof.
  unfold py_index. destruct (i <? 0) eqn:Hneg;
    destruct (_ && _) eqn:Hin; intros [= <-];
    apply andb_prop in Hin as [H1 H2]; lia.
Qed.

Lemma value_set_value (s : bfg) (v w : Z) :
  value s = Ok v →
  ∃ s', value_set w s = Ok s' ∧ value s' = Ok w
        ∧ sr s' = sr s ∧ pc s' = pc s ∧ length (mem s') = length (mem s).
Proof.
  unfold value, value_set, list_index, list_assign. intros H.
  apply bind_inv_Ok in H as (n & Hn & _). rewrite Hn. cbn.
  eexists. split; [reflexivity|]. cbn.
  rewrite length_insert, Hn. cbn.
  apply py_index_inv in Hn.
  rewrite list_lookup_insert_eq by lia. auto.
Qed.

(** ** C2: byte arithmetic *)

(** C2.  The cell adjust operation [byte] applies the asymmetric wraparound
    formula: on a cell holding [v], [-] stores the formula's value at
    [v - 1] and [+] its value at [v + 1]; so decrementing 0 yields 255 and
    incrementing 255 yields 255 (not 0). *)
Theorem byte_wraparound (s : bfg) (v : Z) :
  value s = Ok v →
  (instruction None s = Ok (Some (sym "-")) →
     ∃ s', byte s = Ok s' ∧ value s' = Ok (spec_wrap (v - 1))
           ∧ (v = 0 → value s' = Ok 255))
  ∧ (instruction None s = Ok (Some (sym "+")) →
     ∃ s', byte s = Ok s' ∧ value s' = Ok (spec_wrap (v + 1))
           ∧ (v = 255 → value s' = Ok 255)).
Proof.
  intros Hv. split; intros Hi; unfold byte; rewrite Hv, Hi; cbn.
  - destruct (value_set_value s v (spec_wrap (v - 1)) Hv) as (s' & Hs & Hr & _).
    exists s'. split; [exact Hs|]. split; [exact Hr|].
    intros ->. exact Hr.
  - destruct (value_set_value s v (spec_wrap (v + 1)) Hv) as (s' & Hs & Hr & _).
    exists s'. split; [exact Hs|]. split; [exact Hr|].
    intros ->. exact Hr.
Qed.

Lemma byte_wraparound_witness :
  (value on_minus = Ok 0
   ∧ instruction None on_minus = Ok (Some (sym "-"))
   ∧ ∃ s', byte on_minus = Ok s' ∧ value s' = Ok 255)
  ∧ (value on_plus_at_255 = Ok 255
     ∧ instruction None on_plus_at_255 = Ok (Some (sym "+"))
     ∧ ∃ s', byte on_plus_at_255 = Ok s' ∧ value s' = Ok 255).
Proof.
  split; (split; [reflexivity|]); (split; [reflexivity|]).
  - destruct (byte_wraparound on_minus 0 eq_refl) as [Hdec _].
    destruct (Hdec eq_refl) as (s' & Hb & _ & H0).
    exists s'. split; [exact Hb | exact (H0 eq_refl)].
  - destruct (byte_wraparound on_plus_at_255 255 eq_refl) as [_ Hinc].
    destruct (Hinc eq_refl) as (s' & Hb & _ & H255).
    exists s'. split; [exact Hb | exact (H255 eq_refl)].
Defined.

(** ** C3: the loop handler *)

Lemma dbg_false_Ok (s : bfg) (c : Z) (v : Z) :
  instruction None s = Ok (Some c) →
  value s = Ok v →
  ∃ s', dbg false s = Ok s' ∧ pc s' = pc s ∧ inslen s' = inslen s
        ∧ same_tape s s' ∧ loops s' = loops s.
Proof.
  intros Hi Hv. unfold dbg.
  destruct (debug (set_count (count s + 1) s)) eqn:Hd.
  - change (instruction None (set_count (count s + 1) s)) with (instruction None s).
    change (value (set_count (count s + 1) s)) with (value s).
    rewrite Hi, Hv. cbn. eexists. split; [reflexivity|]. by repeat split.
  - eexists. split; [reflexivity|]. by repeat split.
Qed.

(** C3.  At a bracket whose pair is resolved, the loop handler sets the
    program counter to the matched position exactly when the cell is 0 at an
    opening bracket or nonzero at a closing bracket; otherwise it leaves the
    state alone, and the dispatcher's step then moves the program counter to
    the next instruction. *)
Theorem loop_jump_condition (s : bfg) (m v : Z) (c : Z) :
  loops s !! pc s = Some m →
  value s = Ok v →
  instruction None s = Ok (Some c) →
  c = (sym "[") ∨ c = (sym "]") →
  let jumps := bool_decide ((c = (sym "[") ∧ v = 0) ∨ (c = (sym "]") ∧ v ≠ 0)) in
  loop s = Ok (if jumps then set_pc m s else s)
  ∧ (jumps = false → ∃ b s', step s = Ok (b, s') ∧ pc s' = pc s + 1).
Proof.
  intros Hl Hv Hi Hc jumps.
  assert (Hlp : loop s = Ok (if jumps then set_pc m s else s)).
  { unfold loop. rewrite Hl. cbn. rewrite Hv, Hi. cbn. rewrite Hl.
    subst jumps.
    destruct Hc as [-> | ->]; destruct (Z.eqb_spec v 0) as [-> | Hne]; cbn;
      unfold lang_right; eval_syms;
      repeat case_bool_decide; cbn; try reflexivity; exfalso; intuition congruence. }
  split; [exact Hlp|]. intros Hj. rewrite Hj in Hlp.
  destruct (dbg_false_Ok s c v Hi Hv) as (s' & Hd & Hpc & _).
  unfold step, translate. rewrite Hi, bind_Ok.
  assert (Ha : action (Some c) = Some Hloop) by (destruct Hc as [-> | ->]; reflexivity).
  rewrite Ha. cbn. rewrite Hlp. cbn. rewrite Hd. cbn.
  eexists _, _. split; [reflexivity|]. cbn. lia.
Qed.

(** At a bracket that is not resolved yet the handler first resolves it,
    and then behaves as on the resolved pair. *)
Lemma loop_unresolved (s s1 : bfg) :
  loops s !! pc s = None →
  registerLoop s = Ok s1 →
  is_Some (loops s1 !! pc s1) ∧ loop s = loop s1.
Proof.
  intros Hnone Hreg.
  assert (Hsome : is_Some (loops s1 !! pc s1)).
  { revert Hreg. unfold registerLoop.
    destruct (instruction None s) as [cur|e]; cbn; [|discriminate].
    destruct (scan _ _ _ _) as [[m|]|e]; cbn; try discriminate.
    intros [= <-]. cbn.
    destruct (decide (m = pc s)) as [-> | Hne].
    - rewrite lookup_insert_eq. eauto.
    - rewrite lookup_insert_ne by done. rewrite lookup_insert_eq. eauto. }
  split; [exact Hsome|].
  destruct Hsome as [m Hm]. unfold loop. by rewrite Hnone, Hreg, Hm.
Qed.

Lemma loop_jump_condition_witness :
  loops on_closing_resolved !! pc on_closing_resolved = Some 0
  ∧ value on_closing_resolved = Ok 3
  ∧ instruction None on_closing_resolved = Ok (Some (sym "]"))
  ∧ loop on_closing_resolved = Ok (set_pc 0 on_closing_resolved).
Proof.
  do 3 (split; [by vm_compute|]).
  exact (proj1 (loop_jump_condition on_closing_resolved 0 3 (sym "]")
                  eq_refl eq_refl eq_refl (or_intror eq_refl))).
Defined.

(** ** Ranges *)

Example range_forward_sample : range 4 6 1 = [4; 5].
Proof. reflexivity. Qed.

Example range_backward_sample : range 6 0 (-1) = [6; 5; 4; 3; 2; 1].
Proof. reflexivity. Qed.

Example range_empty_sample : range 5 2 1 = [] ∧ range 1 1 (-1) = [].
Proof. by split. Qed.

(** ** C4: instruction lookup *)

(** An index given as 0 is read as "no index". *)
Lemma instruction_zero (s : bfg) : instruction (Some 0) s = instruction None s.
Proof. reflexivity. Qed.

(** Positive indexes inside the program give the symbol there. *)
Lemma instruction_in_range (s : bfg) (prog : list Z) (i : Z) :
  ins s = Some prog →
  inslen s = Z.of_nat (length prog) →
  0 < i < inslen s →
  ∃ c, prog !! Z.to_nat i = Some c ∧ instruction (Some i) s = Ok (Some c).
Proof.
  intros Hp Hlen Hi.
  destruct (lookup_lt_is_Some_2 prog (Z.to_nat i)) as [c Hc]; [lia|].
  exists c. split; [exact Hc|].
  unfold instruction, str_index, py_index.
  destruct (Z.eqb_spec i 0); [lia|].
  destruct (Z.ltb_spec i (inslen s)); [|lia]. rewrite Hp.
  destruct (Z.ltb_spec i 0); [lia|].
  destruct (Z.leb_spec 0 i); [|lia].
  destruct (Z.ltb_spec i (Z.of_nat (length prog))); [|lia].
  cbn. by rewrite Hc.
Qed.

(** Indexes from the length on give nothing. *)
Lemma instruction_above (s : bfg) (i : Z) :
  i ≠ 0 → inslen s ≤ i → instruction (Some i) s = Ok None.
Proof.
  intros Hz Hi. unfold instruction.
  destruct (Z.eqb_spec i 0); [done|].
  by destruct (Z.ltb_spec i (inslen s)); [lia|].
Qed.

(** Below index 1 the lookup is not by position.  In the two-symbol
    program [ab] with the program counter on [b]: index 0 is inside the
    program and position 0 holds [a], but [instruction 0] gives [b] (0 is
    read as "no index"); the indexes -1 and -3 are outside the program, but
    [instruction] does not give "none" for them: -1 gives [b] (counted from
    the end) and -3 fails in the lookup. *)
Lemma instruction_below_one :
  ins on_b_of_ab = Some (text "ab") ∧ inslen on_b_of_ab = 2 ∧ pc on_b_of_ab = 1
  ∧ text "ab" !! 0%nat = Some (sym "a")
  ∧ instruction (Some 0) on_b_of_ab = Ok (Some (sym "b"))
  ∧ instruction (Some 0) on_b_of_ab ≠ Ok (Some (sym "a"))
  ∧ instruction (Some (-1)) on_b_of_ab = Ok (Some (sym "b"))
  ∧ instruction (Some (-1)) on_b_of_ab ≠ Ok None
  ∧ instruction (Some (-3)) on_b_of_ab = Raise IndexError
  ∧ instruction (Some (-3)) on_b_of_ab ≠ Ok None.
Proof. repeat split; by vm_compute. Qed.

(** C4.  [instruction] on the indexes the interpreter passes to it, those
    from 1 on: for every stored program and every index [i] with [1 ≤ i],
    [instruction i] returns the program's symbol at position [i] when [i] is
    below the program length, and "none" when [i] is the length or more. *)
Theorem instruction_from_one (s : bfg) (prog : list Z) (i : Z) :
  ins s = Some prog →
  inslen s = Z.of_nat (length prog) →
  1 ≤ i →
  (i < inslen s →
   ∃ c, prog !! Z.to_nat i = Some c ∧ instruction (Some i) s = Ok (Some c))
  ∧ (inslen s ≤ i → instruction (Some i) s = Ok None).
Proof.
  intros Hp Hlen Hi. split.
  - intros Hlt. apply instruction_in_range; [done..|lia].
  - intros Hge. apply instruction_above; [lia|done].
Qed.

Lemma instruction_from_one_witness :
  ins on_b_of_ab = Some (text "ab")
  ∧ inslen on_b_of_ab = Z.of_nat (length (text "ab"))
  ∧ instruction (Some 1) on_b_of_ab = Ok (Some (sym "b"))
  ∧ instruction (Some 2) on_b_of_ab = Ok None.
Proof.
  split; [reflexivity|]. split; [reflexivity|]. split.
  - destruct (proj1 (instruction_from_one on_b_of_ab (text "ab") 1
                       eq_refl eq_refl ltac:(lia)) ltac:(cbn; lia))
      as (c & Hc & Hi).
    vm_compute in Hc. injection Hc as <-. exact Hi.
  - exact (proj2 (instruction_from_one on_b_of_ab (text "ab") 2
                    eq_refl eq_refl ltac:(lia)) ltac:(cbn; lia)).
Defined.

(** ** C1: direction of the bracket scan *)

Lemma scan_found (char : Z) (l : list Z) (s : bfg) (cnt i : Z) :
  scan char cnt l s = Ok (Some i) →
  i ∈ l ∧ instruction (Some i) s = Ok (Some char).
Proof.
  revert cnt. induction l as [|j l IH]; intros cnt; cbn; [discriminate|].
  destruct (instruction (Some j) s) as [a|e] eqn:Ha; cbn; [|discriminate].
  destruct (instruction None s) as [cur|e] eqn:Hcur; cbn; [|discriminate].
  case_bool_decide.
  - intros H'. apply IH in H' as [? ?]. split; [by right | done].
  - case_bool_decide; subst.
    + destruct (0 <? cnt).
      * intros H'. apply IH in H' as [? ?]. split; [by right | done].
      * intros [= ->]. split; [by left | done].
    + intros H'. apply IH in H' as [? ?]. split; [by right | done].
Qed.

Lemma range_forward (start stop i : Z) :
  i ∈ range start stop 1 → start ≤ i < stop.
Proof.
  unfold range. cbn. intros H.
  apply list_elem_of_fmap in H as (k & -> & Hk).
  apply elem_of_seq in Hk.
  replace (stop - start + 1 - 1) with (stop - start) in Hk by lia.
  rewrite Z.div_1_r in Hk. lia.
Qed.

(** The forward half: resolving an opening bracket records a closing
    bracket further on, in both directions. *)
Lemma registerLoop_opening (s s' : bfg) :
  instruction None s = Ok (Some (sym "[")) →
  registerLoop s = Ok s' →
  ∃ m, pc s < m < inslen s
       ∧ instruction (Some m) s = Ok (Some (sym "]"))
       ∧ loops s' !! pc s = Some m ∧ loops s' !! m = Some (pc s).
Proof.
  intros Hi. unfold registerLoop. rewrite Hi, bind_Ok.
  rewrite bool_decide_eq_false_2 by done. cbv zeta.
  destruct (scan _ _ _ _) as [[m|]|e] eqn:Hs; cbn; rewrite ?Hi; try discriminate.
  intros [= <-]. apply scan_found in Hs as [Hin Hm].
  apply range_forward in Hin. exists m. cbn.
  repeat split; try lia; try done.
  - rewrite lookup_insert_ne by lia. by rewrite lookup_insert_eq.
  - by rewrite lookup_insert_eq.
Qed.

(** C1.  [registerLoop] on a closing bracket followed by an opening one: on
    the program [][] with the program counter on the closing bracket at
    position 0, the backward scan begins at position 1 and records the
    opening bracket there, a position greater than that of the closing
    bracket; and the program [+][] runs to its end with that pair in the
    loop table instead of failing on the dangling closing bracket. *)
Theorem registerLoop_closing_pairs_forward :
  (pc on_closing_first = 0
   ∧ instruction None on_closing_first = Ok (Some (sym "]"))
   ∧ ∃ s', registerLoop on_closing_first = Ok s'
           ∧ loops s' !! 0 = Some 1
           ∧ instruction (Some 1) s' = Ok (Some (sym "[")))
  ∧ ∀ n : nat,
      ∃ s', run_script (text "+][") (3 + n) (run_setup false true false false (init [])) = Some (Ok s')
            ∧ loops s' !! 1 = Some 2 ∧ pc s' = 3.
Proof.
  split.
  - do 2 (split; [reflexivity|]).
    eexists. split; [vm_compute; reflexivity|]. by vm_compute.
  - intros n. eexists. split; [vm_compute; reflexivity|]. by vm_compute.
Qed.

(** ** C5: the run of [+++.] *)

(** C5.  The run of [+++.].  In a traced batch run the delayed output
    holds the one character of code 3, and the summary is [Report 4 5 1],
    that is 4 instructions and 5 steps (the reporting call of [dbg] counts
    itself before it prints).  Without tracing the character is printed at
    once and no summary is written. *)
Theorem plus_plus_plus_dot_report (n : nat) :
  (∃ s', run_script (text "+++.") (4 + n) (run_setup false false true false (init [])) = Some (Ok s')
         ∧ stdout s' = Some [3]
         ∧ trace s' = [TraceStep 0 (sym "+") 0 1; TraceStep 1 (sym "+") 0 2;
                       TraceStep 2 (sym "+") 0 3; TraceStep 3 (sym ".") 0 3;
                       Report 4 5 1])
  ∧ (∃ s', run_script (text "+++.") (4 + n) fresh = Some (Ok s')
           ∧ trace s' = [Print 3 false]).
Proof.
  split; eexists; (split; [vm_compute; reflexivity|]); by vm_compute.
Qed.

(** ** C7: symmetry of the loop table *)

(** What [registerLoop] writes is a pair in both directions. *)
Lemma registerLoop_records_both (s s' : bfg) :
  registerLoop s = Ok s' →
  ∃ m, loops s' !! m = Some (pc s) ∧ (m ≠ pc s → loops s' !! pc s = Some m).
Proof.
  unfold registerLoop.
  destruct (instruction None s) as [cur|e]; cbn; [|discriminate].
  destruct (scan _ _ _ _) as [[m|]|e]; cbn; try discriminate.
  intros [= <-]. exists m. cbn. split.
  - by rewrite lookup_insert_eq.
  - intros Hne. rewrite lookup_insert_ne by done. by rewrite lookup_insert_eq.
Qed.

(** Writing a pair over two free positions keeps a symmetric table
    symmetric. *)
Lemma symmetric_insert_pair (m : gmap Z Z) (a b : Z) :
  symmetric m → m !! a = None → m !! b = None →
  symmetric (<[b := a]> (<[a := b]> m)).
Proof.
  intros Hsym Ha Hb x y.
  destruct (decide (x = b)) as [-> | Hxb].
  - rewrite lookup_insert_eq. intros [= <-].
    destruct (decide (a = b)) as [-> | Hab]; [by rewrite lookup_insert_eq|].
    rewrite lookup_insert_ne by done. by rewrite lookup_insert_eq.
  - rewrite lookup_insert_ne by done.
    destruct (decide (x = a)) as [-> | Hxa].
    + rewrite lookup_insert_eq. intros [= <-]. by rewrite lookup_insert_eq.
    + rewrite lookup_insert_ne by done. intros Hxy.
      pose proof (Hsym x y Hxy) as Hyx.
      rewrite !lookup_insert_ne by congruence. exact Hyx.
Qed.

(** So [registerLoop] keeps the table symmetric as long as the position it
    finds is not in the table yet. *)
Lemma registerLoop_symmetric (s s' : bfg) :
  symmetric (loops s) →
  loops s !! pc s = None →
  registerLoop s = Ok s' →
  (∀ m, loops s' !! m = Some (pc s) → loops s !! m = None) →
  symmetric (loops s').
Proof.
  intros Hsym Hpc. unfold registerLoop.
  destruct (instruction None s) as [cur|e]; cbn; [|discriminate].
  destruct (scan _ _ _ _) as [[m|]|e]; cbn; try discriminate.
  intros [= <-]. cbn. intros Hfree.
  apply symmetric_insert_pair; [done | done |].
  apply Hfree. by rewrite lookup_insert_eq.
Qed.

(** C7.  The loop table is not always symmetric: the shell session of the
    two lines [++#[] and [[-]] runs both lines to their end and leaves a
    table that maps 3 to 6 but 6 to 4. *)
Theorem loops_asymmetric_in_shell (n : nat) :
  ∃ s', run_shell 2 (5 + n) (shell_start ["++#["; "[-]"]) = Some (Ok s')
        ∧ ins s' = Some (text "++#[[-]")
        ∧ loops s' !! 3 = Some 6
        ∧ loops s' !! 6 = Some 4
        ∧ ¬ symmetric (loops s').
Proof.
  eexists. split; [vm_compute; reflexivity|].
  do 3 (split; [by vm_compute|]).
  intros Hsym. specialize (Hsym 3 6). vm_compute in Hsym.
  specialize (Hsym eq_refl). discriminate.
Qed.

(** ** C8: persistence in the shell *)

Lemma reset_keep (s : bfg) : keep s = true → reset false s = set_buf None s.
Proof. intros Hk. unfold reset. cbn. by rewrite Hk. Qed.

(** C8.  In the shell the three lines [+], [+] and [.] print the character
    of code 2.  After each line the program counter stands at the length of
    the program so far, and the tape is the one the earlier lines left: a
    reset in persistent mode changes nothing but the line buffer, and
    [shell] only appends the line to the program. *)
Theorem shell_three_lines (n : nat) :
  let s0 := shell_start ["+"; "+"; "."] in
  (∃ s1 s2 s3,
      run_shell_line (1 + n) s0 = Some (Ok s1)
      ∧ run_shell_line (1 + n) s1 = Some (Ok s2)
      ∧ run_shell_line (1 + n) s2 = Some (Ok s3)
      ∧ run_shell 3 (1 + n) s0 = Some (Ok s3)
      ∧ (ins s1 = Some (text "+") ∧ pc s1 = 1 ∧ inslen s1 = 1 ∧ mem s1 = [1] ∧ sr s1 = 0)
      ∧ (ins s2 = Some (text "++") ∧ pc s2 = 2 ∧ inslen s2 = 2 ∧ mem s2 = [2] ∧ sr s2 = 0)
      ∧ (ins s3 = Some (text "++.") ∧ pc s3 = 3 ∧ inslen s3 = 3 ∧ mem s3 = [2] ∧ sr s3 = 0)
      ∧ printed s1 = [] ∧ printed s2 = [] ∧ printed s3 = [2])
  ∧ (∀ s, keep s = true →
       let s' := reset false s in
       mem s' = mem s ∧ sr s' = sr s ∧ loops s' = loops s ∧ pc s' = pc s
       ∧ ins s' = ins s ∧ inslen s' = inslen s)
  ∧ (∀ s line rest, stdin s = line :: rest →
       ∃ s', shell s = Ok (Some (default [] (ins s) ++ line)%list, s')
             ∧ mem s' = mem s ∧ sr s' = sr s ∧ loops s' = loops s ∧ pc s' = pc s
             ∧ inslen s' = inslen s + Z.of_nat (length line)).
Proof.
  intros s0. split; [|split].
  - eexists _, _, _.
    do 3 (split; [vm_compute; reflexivity|]).
    split; [vm_compute; reflexivity|]. by vm_compute.
  - intros s Hk s'. subst s'. by rewrite reset_keep.
  - intros s line rest Hin. unfold shell, inp, input. cbn. rewrite Hin. cbn.
    eexists. split; [reflexivity|]. cbn.
    by repeat split.
Qed.

Lemma shell_three_lines_witness :
  keep (shell_start ["+"]) = true
  ∧ mem (reset false (shell_start ["+"])) = mem (shell_start ["+"])
  ∧ pc (reset false (shell_start ["+"])) = pc (shell_start ["+"])
  ∧ stdin (shell_start ["+"]) = [text "+"]
  ∧ ∃ s', shell (shell_start ["+"]) = Ok (Some (text "+"), s') ∧ inslen s' = 1.
Proof.
  split; [reflexivity|].
  destruct (shell_three_lines 0) as (_ & Hreset & Hshell).
  destruct (Hreset (shell_start ["+"]) eq_refl) as (Hm & _ & _ & Hp & _).
  split; [exact Hm|]. split; [exact Hp|]. split; [reflexivity|].
  destruct (Hshell (shell_start ["+"]) (text "+") [] eq_refl) as (s' & Hs & _ & _ & _ & _ & Hl).
  exists s'. split; [exact Hs | exact Hl].
Defined.

(** ** C6: the pointer stays inside the tape *)

Lemma tape_ok_same (s t : bfg) : same_tape s t → tape_ok s → tape_ok t.
Proof. intros (Hm & Hs & Hl & _) Hok. unfold tape_ok in *. by rewrite Hm, Hs, Hl. Qed.

Lemma ptr_right_lazy (s : bfg) :
  tape_ok s → strict s = false →
  instruction None s = Ok (Some (sym ">")) →
  ∃ s', ptr s = Ok s' ∧ sr s' = sr s + 1 ∧ strict s' = false ∧ tape_ok s'
        ∧ (if decide (sr s + 1 = memlen s)
           then mem s' = (mem s ++ [0])%list ∧ memlen s' = memlen s + 1
           else mem s' = mem s ∧ memlen s' = memlen s).
Proof.
  intros [Hsr Hlen] Hlazy Hi. unfold ptr. rewrite Hi. cbn. decide_syms.
  unfold segflt. cbn. rewrite Hlazy.
  destruct (Z.leb_spec (memlen s) (sr s + 1)).
  - eexists. split; [reflexivity|]. cbn.
    rewrite decide_True by lia.
    unfold tape_ok. cbn. rewrite length_app. cbn. repeat split; try done; lia.
  - destruct (Z.ltb_spec (sr s + 1) 0); [lia|].
    eexists. split; [reflexivity|]. cbn.
    rewrite decide_False by lia.
    unfold tape_ok. cbn. repeat split; try done; lia.
Qed.

Lemma ptr_left_negative (s : bfg) :
  0 ≤ memlen s →
  instruction None s = Ok (Some (sym "<")) →
  sr s - 1 < 0 →
  ptr s = Raise (BrainFuckingGoneError
                   (Segfault (pc s) (Some (sym "<")) "negative data pointer value")).
Proof.
  intros Hlen Hi Hneg. unfold ptr. rewrite Hi. cbn. decide_syms.
  unfold segflt. cbn.
  destruct (Z.leb_spec (memlen s) (sr s - 1)); [lia|].
  destruct (Z.ltb_spec (sr s - 1) 0); [|lia].
  change (instruction None (set_sr (sr s - 1) s)) with (instruction None s).
  by rewrite Hi.
Qed.

Lemma ptr_left_lazy (s s' : bfg) :
  tape_ok s → strict s = false →
  instruction None s = Ok (Some (sym "<")) →
  ptr s = Ok s' →
  sr s' = sr s - 1 ∧ mem s' = mem s ∧ strict s' = false ∧ tape_ok s'.
Proof.
  intros [Hsr Hlen] Hlazy Hi. unfold ptr. rewrite Hi. cbn. decide_syms.
  unfold segflt. cbn.
  destruct (Z.leb_spec (memlen s) (sr s - 1)); [lia|].
  destruct (Z.ltb_spec (sr s - 1) 0).
  - change (instruction None (set_sr (sr s - 1) s)) with (instruction None s).
    rewrite Hi. discriminate.
  - intros [= <-]. unfold tape_ok. cbn. repeat split; try done; lia.
Qed.

Lemma ptr_run_invariant (s t : bfg) :
  ptr_run s t → tape_ok s → strict s = false → tape_ok t ∧ strict t = false.
Proof.
  induction 1 as [s t Hsame | s s1 s2 t Hmove Hptr Hsame _ IH]; intros Hok Hlazy.
  - split; [by eapply tape_ok_same|]. destruct Hsame as (_ & _ & _ & ->). done.
  - assert (tape_ok s1 ∧ strict s1 = false) as [Hok1 Hlazy1].
    { destruct Hmove as [Hi | Hi].
      - by destruct (ptr_left_lazy s s1 Hok Hlazy Hi Hptr) as (_ & _ & ? & ?).
      - destruct (ptr_right_lazy s Hok Hlazy Hi) as (s' & Hp & _ & ? & ? & _).
        rewrite Hptr in Hp. by injection Hp as <-. }
    apply IH.
    + by eapply tape_ok_same.
    + destruct Hsame as (_ & _ & _ & ->). done.
Qed.

Lemma dbg_inv (report : bool) (s s' : bfg) :
  dbg report s = Ok s' →
  same_tape s s' ∧ pc s' = pc s ∧ loops s' = loops s
  ∧ inslen s' = inslen s ∧ ins s' = ins s.
Proof.
  unfold dbg. set (s0 := set_count (count s + 1) s).
  assert (Hs0 : ∀ u, u = s0 ∨ (∃ e, u = emit e s0) →
                     same_tape s u ∧ pc u = pc s ∧ loops u = loops s
                     ∧ inslen u = inslen s ∧ ins u = ins s)
    by (intros u [-> | [e ->]]; by repeat split).
  destruct (debug s0); [destruct report|].
  - intros [= <-]. apply Hs0. eauto.
  - destruct (instruction None s0) as [[c|]|e]; cbn; try discriminate.
    + destruct (value s0) as [v|e]; cbn; [|discriminate].
      intros [= <-]. apply Hs0. eauto.
    + intros [= <-]. apply Hs0. eauto.
  - intros [= <-]. apply Hs0. eauto.
Qed.

(** The dispatcher's step on a pointer move is that move, the rest leaves
    the tape alone. *)
Lemma step_ptr_move (s t : bfg) (b : bool) :
  is_ptr_move s → step s = Ok (b, t) → ∃ s1, ptr s = Ok s1 ∧ same_tape s1 t.
Proof.
  intros Hmove. unfold step, translate.
  assert (∃ c, instruction None s = Ok (Some c) ∧ action (Some c) = Some Hptr)
    as (c & Hi & Ha) by (destruct Hmove as [Hi | Hi]; eexists; (split; [exact Hi | reflexivity])).
  rewrite Hi, bind_Ok, Ha. cbn.
  destruct (ptr s) as [s1|e]; cbn; [|discriminate].
  destruct (dbg false s1) as [s2|e] eqn:Hd; cbn; [|discriminate].
  intros [= _ <-]. exists s1. split; [done|].
  apply dbg_inv in Hd as ((Hm & Hs & Hl & Hst) & _). by repeat split.
Qed.

(** C6.  In lazy mode every sequence of pointer moves that does not raise
    keeps [0 ≤ sr < len(mem)] (and [memlen = len(mem)]); a move to the right
    appends exactly one zero cell when the pointer reaches the capacity and
    leaves the tape alone otherwise; the tape of a fresh session satisfies
    the invariant; and in every state a move to the left that makes the
    pointer negative raises the Segfault "negative data pointer value", as
    a leading [<] does at session start. *)
Theorem ptr_lazy_invariant :
  (∀ s t, tape_ok s → strict s = false → ptr_run s t → tape_ok t)
  ∧ (∀ s, tape_ok s → strict s = false → instruction None s = Ok (Some (sym ">")) →
       ∃ s', ptr s = Ok s' ∧ sr s' = sr s + 1
             ∧ (if decide (sr s + 1 = memlen s)
                then mem s' = (mem s ++ [0])%list ∧ memlen s' = memlen s + 1
                else mem s' = mem s ∧ memlen s' = memlen s))
  ∧ (∀ s, 0 ≤ memlen s → instruction None s = Ok (Some (sym "<")) → sr s - 1 < 0 →
       ptr s = Raise (BrainFuckingGoneError
                        (Segfault (pc s) (Some (sym "<")) "negative data pointer value")))
  ∧ (tape_ok fresh ∧ strict fresh = false)
  ∧ (∀ n : nat,
       run_script (text "<") (1 + n) fresh
       = Some (Raise (BrainFuckingGoneError
                        (Segfault 0 (Some (sym "<")) "negative data pointer value")))).
Proof.
  split; [|split; [|split; [|split]]].
  - intros s t Hok Hlazy Hrun. by destruct (ptr_run_invariant s t Hrun Hok Hlazy).
  - intros s Hok Hlazy Hi.
    destruct (ptr_right_lazy s Hok Hlazy Hi) as (s' & Hp & Hsr & _ & _ & Hgrow).
    by exists s'.
  - exact ptr_left_negative.
  - split; [|reflexivity]. repeat split; by vm_compute.
  - intros n. reflexivity.
Qed.

Lemma ptr_lazy_invariant_witness :
  (tape_ok on_right ∧ strict on_right = false
   ∧ instruction None on_right = Ok (Some (sym ">"))
   ∧ ∃ s', ptr on_right = Ok s' ∧ sr s' = 1 ∧ mem s' = [0; 0] ∧ tape_ok s')
  ∧ (0 ≤ memlen (load (text "<") fresh)
     ∧ instruction None (load (text "<") fresh) = Ok (Some (sym "<"))
     ∧ sr (load (text "<") fresh) - 1 < 0
     ∧ ptr (load (text "<") fresh)
       = Raise (BrainFuckingGoneError
                  (Segfault 0 (Some (sym "<")) "negative data pointer value"))).
Proof.
  assert (Hok : tape_ok on_right) by (repeat split; by vm_compute).
  destruct ptr_lazy_invariant as (Hinv & Hgrow & Hneg & _).
  split.
  - split; [exact Hok|]. split; [reflexivity|]. split; [reflexivity|].
    destruct (Hgrow on_right Hok eq_refl eq_refl) as (s' & Hp & Hsr & Hmem).
    exists s'. split; [exact Hp|]. split; [exact Hsr|].
    split; [exact (proj1 Hmem)|].
    apply (Hinv on_right s' Hok eq_refl).
    eapply ptr_run_move; [by right | exact Hp | by repeat split | by apply ptr_run_refl].
  - assert (H0 : 0 ≤ memlen (load (text "<") fresh)) by (by vm_compute).
    assert (H1 : sr (load (text "<") fresh) - 1 < 0) by (by vm_compute).
    split; [exact H0|]. split; [reflexivity|]. split; [exact H1|].
    exact (Hneg (load (text "<") fresh) H0 eq_refl H1).
Defined.

(** ** C9: end of the input stream *)

Lemma dbg_report (s : bfg) : dbg true s = Ok (reported s).
Proof. unfold dbg, reported. by destruct (debug _). Qed.

(** Every halt of the loop, whatever broke it, is followed by the same
    report and reset. *)
Lemma execute_halt (fuel : nat) (s t : bfg) :
  execute_loop fuel s = Some (Ok t) →
  execute false fuel s = Some (Ok (reset false (reported t))).
Proof. intros H. unfold execute. rewrite H. cbn. by rewrite dbg_report. Qed.

Lemma inp_eof (s : bfg) (prompt : string) :
  remain s = None → stdin s = [] → inp prompt false s = Ok (false, s).
Proof. intros Hr Hin. unfold inp, input. by rewrite Hr, Hin. Qed.

(** C9.  When an input instruction finds the input stream at its end, the
    handler asks for a halt and leaves the state (the current cell
    included) as it was; the loop of [execute] breaks without an error;
    and [execute] ends with the report and reset that follow every halt
    of the loop. *)
Theorem input_eof_halts (s : bfg) (fuel : nat) :
  instruction None s = Ok (Some (sym ",")) →
  remain s = None →
  stdin s = [] →
  inout s = Ok (true, s)
  ∧ execute_loop (S fuel) s = Some (Ok s)
  ∧ execute false (S fuel) s = Some (Ok (reset false (reported s)))
  ∧ mem (reported s) = mem s
  ∧ trace (reported s)
    = (trace s ++ if debug s then [Report (inslen s) (count s + 1) (memlen s)] else [])%list
  ∧ ∀ fuel' s0 t, execute_loop fuel' s0 = Some (Ok t) →
                  execute false fuel' s0 = Some (Ok (reset false (reported t))).
Proof.
  intros Hi Hr Hin.
  assert (Hio : inout s = Ok (true, s)).
  { unfold inout. rewrite Hi, bind_Ok. decide_syms.
    rewrite bind_Ok. decide_syms. by rewrite inp_eof. }
  assert (Hlp : execute_loop (S fuel) s = Some (Ok s)).
  { assert (Hstep : step s = Ok (true, s)).
    { unfold step, translate. rewrite Hi, bind_Ok.
      change (action (Some (sym ","))) with (Some Hinout). cbv beta iota.
      change (call Hinout s) with (inout s). by rewrite Hio. }
    cbn [execute_loop]. by rewrite Hstep. }
  split; [exact Hio|]. split; [exact Hlp|].
  split; [by apply execute_halt|].
  split; [unfold reported; cbn; by destruct (debug s)|].
  split; [|intros fuel' s0 t; apply execute_halt].
  unfold reported. cbn. destruct (debug s); cbn; [done|]. by rewrite app_nil_r.
Qed.

Lemma input_eof_halts_witness :
  instruction None on_comma_traced = Ok (Some (sym ","))
  ∧ remain on_comma_traced = None
  ∧ stdin on_comma_traced = []
  ∧ execute false 1 on_comma_traced = Some (Ok (reset false (reported on_comma_traced)))
  ∧ trace (reported on_comma_traced) = [Report 1 1 1].
Proof.
  do 3 (split; [reflexivity|]).
  destruct (input_eof_halts on_comma_traced 0 eq_refl eq_refl eq_refl)
    as (_ & _ & He & _ & Ht & _).
  split; [exact He | exact Ht].
Defined.

(** ** C10: an empty input line *)

(** C10.  When an input instruction is waiting for a character (nothing is
    buffered) and the line source delivers an empty line, [inp] indexes
    position 0 of the empty string: the [IndexError] is not caught, so the
    input handler and the whole execution raise it instead of asking for
    another line or halting. *)
Theorem inp_empty_line_raises (s : bfg) (rest : list (list Z)) (fuel : nat) :
  remain s = None →
  stdin s = [] :: rest →
  (∀ prompt, inp prompt false s = Raise IndexError)
  ∧ (instruction None s = Ok (Some (sym ",")) →
       inout s = Raise IndexError
       ∧ execute false (S fuel) s = Some (Raise IndexError)).
Proof.
  intros Hr Hin.
  assert (Hinp : ∀ prompt, inp prompt false s = Raise IndexError)
    by (intros prompt; unfold inp, input; by rewrite Hr, Hin).
  split; [exact Hinp|]. intros Hi.
  assert (Hio : inout s = Raise IndexError).
  { unfold inout. rewrite Hi, bind_Ok. decide_syms.
    rewrite bind_Ok. decide_syms. by rewrite Hinp. }
  split; [exact Hio|].
  assert (Hstep : step s = Raise IndexError).
  { unfold step, translate. rewrite Hi, bind_Ok.
    change (action (Some (sym ","))) with (Some Hinout). cbv beta iota.
    change (call Hinout s) with (inout s). by rewrite Hio. }
  unfold execute. cbn [execute_loop]. by rewrite Hstep.
Qed.

Lemma inp_empty_line_raises_witness :
  remain on_comma_empty_line = None
  ∧ stdin on_comma_empty_line = [[]; text "A"]
  ∧ instruction None on_comma_empty_line = Ok (Some (sym ","))
  ∧ execute false 1 on_comma_empty_line = Some (Raise IndexError).
Proof.
  do 3 (split; [reflexivity|]).
  exact (proj2 (proj2 (inp_empty_line_raises on_comma_empty_line [text "A"] 0 eq_refl eq_refl)
                  eq_refl)).
Defined.

(** ** The bound of [ignoreUntil] *)

(** The iterations given to the loop of [ignoreUntil] are enough: more
    would not change its result. *)
Lemma ignoreUntil_loop_bound (until : Z) (n m : nat) (s : bfg) :
  (Z.to_nat (inslen s - pc s) < n)%nat →
  (Z.to_nat (inslen s - pc s) < m)%nat →
  ignoreUntil_loop n until s = ignoreUntil_loop m until s.
Proof.
  revert m s. induction n as [|n IH]; intros m s Hn Hm; [lia|].
  destruct m as [|m]; [lia|]. cbn.
  destruct (instruction None s) as [cur|e]; cbn; [|done].
  case_bool_decide; [|done].
  destruct (Z.ltb_spec (pc s + 1) (inslen s)); [|done].
  apply IH; cbn; lia.
Qed.

(** * Further properties *)

(** ** Looking symbols up *)

Lemma instruction_lookup (s : bfg) (prog : list Z) (arg : option Z) (p : Z) :
  ins s = Some prog →
  inslen s = Z.of_nat (length prog) →
  p = match arg with Some i => if i =? 0 then pc s else i | None => pc s end →
  0 ≤ p →
  instruction arg s = Ok (prog !! Z.to_nat p).
Proof.
  intros Hins Hlen Hp Hpos. unfold instruction. rewrite <- Hp.
  destruct (Z.ltb_spec p (inslen s)) as [Hlt | Hge].
  - rewrite Hins. unfold str_index, py_index.
    destruct (Z.ltb_spec p 0); [lia|].
    destruct (Z.leb_spec 0 p); [|lia].
    destruct (Z.ltb_spec p (Z.of_nat (length prog))); [|lia]. cbn.
    destruct (lookup_lt_is_Some_2 prog (Z.to_nat p)) as [c Hc]; [lia|]. by rewrite Hc.
  - by rewrite lookup_ge_None_2 by lia.
Qed.

Lemma instruction_current (s : bfg) (prog : list Z) :
  prog_ok prog s → instruction None s = Ok (prog !! Z.to_nat (pc s)).
Proof. intros (Hins & Hlen & Hpc). by eapply instruction_lookup. Qed.

Lemma instruction_at (s : bfg) (prog : list Z) (i : Z) :
  prog_ok prog s → 0 < i → instruction (Some i) s = Ok (prog !! Z.to_nat i).
Proof.
  intros (Hins & Hlen & Hpc) Hi. eapply instruction_lookup; [done | done | | lia].
  by destruct (Z.eqb_spec i 0); [lia|].
Qed.

Lemma get_occurs (prog : list Z) (n : nat) (c : Z) :
  prog !! n = Some c → occurs c prog.
Proof.
  unfold occurs. apply list_elem_of_lookup_2.
Qed.

(** ** What a step leaves alone *)

Lemma same_program_refl (s : bfg) : same_program s s.
Proof. by repeat split. Qed.

Lemma same_program_trans (s t u : bfg) :
  same_program s t → same_program t u → same_program s u.
Proof.
  intros (? & ? & ? & ? & ?) (? & ? & ? & ? & ?). repeat split; congruence.
Qed.

Lemma registerLoop_inv (s s' : bfg) :
  registerLoop s = Ok s' →
  ∃ m, s' = set_loops (<[m := pc s]> (<[pc s := m]> (loops s))) s.
Proof.
  unfold registerLoop.
  destruct (instruction None s) as [cur|e]; cbn; [|discriminate].
  destruct (scan _ _ _ _) as [[m|]|e]; cbn; try discriminate.
  intros [= <-]. by exists m.
Qed.

Lemma loop_inv (s s' : bfg) :
  loop s = Ok s' →
  same_program s s' ∧ same_tape s s' ∧ count s' = count s ∧ trace s' = trace s
  ∧ stdin s' = stdin s ∧ remain s' = remain s ∧ stdout s' = stdout s
  ∧ (∀ k, is_Some (loops s !! k) → is_Some (loops s' !! k)).
Proof.
  unfold loop.
  destruct (match loops s !! pc s with None => registerLoop s | Some _ => Ok s end)
    as [s1|e] eqn:Hres; cbn; [|discriminate].
  assert (Hs1 : same_program s s1 ∧ same_tape s s1 ∧ count s1 = count s
                ∧ trace s1 = trace s ∧ stdin s1 = stdin s ∧ remain s1 = remain s
                ∧ stdout s1 = stdout s
                ∧ (∀ k, is_Some (loops s !! k) → is_Some (loops s1 !! k))).
  { destruct (loops s !! pc s) eqn:Hl.
    - injection Hres as <-. by repeat split.
    - apply registerLoop_inv in Hres as [m ->]. repeat split. cbn. intros k Hk.
      destruct (decide (k = m)) as [-> | ?]; [rewrite lookup_insert_eq; eauto|].
      rewrite lookup_insert_ne by done.
      destruct (decide (k = pc s)) as [-> | ?]; [rewrite lookup_insert_eq; eauto|].
      by rewrite lookup_insert_ne. }
  destruct (value s1) as [v|e]; cbn; [|discriminate].
  destruct (instruction None s1) as [cur|e]; cbn; [|discriminate].
  destruct (negb _); intros [= <-]; [|exact Hs1].
  destruct Hs1 as (Hp & Ht & Hc & Htr & Hin & Hr & Ho & Hk).
  repeat split; try apply Hp; try apply Ht; done.
Qed.

Lemma segflt_inv (s s' : bfg) :
  segflt s = Ok s' →
  same_program s s' ∧ pc s' = pc s ∧ sr s' = sr s ∧ loops s' = loops s
  ∧ count s' = count s ∧ trace s' = trace s ∧ stdin s' = stdin s
  ∧ remain s' = remain s ∧ stdout s' = stdout s.
Proof.
  unfold segflt.
  destruct (memlen s <=? sr s); [destruct (strict s)|destruct (sr s <? 0)];
    try (destruct (instruction None s); discriminate);
    intros [= <-]; by repeat split.
Qed.

Lemma ptr_inv (s s' : bfg) :
  ptr s = Ok s' →
  same_program s s' ∧ pc s' = pc s ∧ loops s' = loops s
  ∧ count s' = count s ∧ trace s' = trace s ∧ stdin s' = stdin s
  ∧ remain s' = remain s ∧ stdout s' = stdout s.
Proof.
  unfold ptr.
  destruct (instruction None s) as [cur|e]; cbn; [|discriminate].
  repeat case_bool_decide; cbn; intros Hseg;
    apply segflt_inv in Hseg as (Hp & ? & ? & ? & ? & ? & ? & ? & ?);
    destruct Hp as (? & ? & ? & ? & ?); by repeat split.
Qed.

Lemma value_set_inv (v : Z) (s s' : bfg) :
  value_set v s = Ok s' →
  ∃ n, py_index (Z.of_nat (length (mem s))) (sr s) = Ok n
       ∧ s' = set_mem (<[n := v]> (mem s)) s.
Proof.
  unfold value_set, list_assign.
  destruct (py_index _ _) as [n|e]; cbn; [|discriminate].
  intros [= <-]. by exists n.
Qed.

Lemma byte_inv (s s' : bfg) :
  byte s = Ok s' →
  same_program s s' ∧ pc s' = pc s ∧ sr s' = sr s ∧ loops s' = loops s
  ∧ count s' = count s ∧ trace s' = trace s ∧ stdin s' = stdin s
  ∧ remain s' = remain s ∧ stdout s' = stdout s
  ∧ memlen s' = memlen s ∧ length (mem s') = length (mem s).
Proof.
  unfold byte.
  destruct (value s) as [v|e]; cbn; [|discriminate].
  destruct (instruction None s) as [cur|e]; cbn; [|discriminate].
  repeat case_bool_decide; cbn; intros Hset;
    apply value_set_inv in Hset as (n & _ & ->); cbn;
    rewrite length_insert; by repeat split.
Qed.

Lemma inp_remain_inv (r : list Z) (s : bfg) (b : bool) (s' : bfg) :
  inp_remain r s = Ok (b, s') →
  same_program s s' ∧ pc s' = pc s ∧ sr s' = sr s ∧ loops s' = loops s
  ∧ count s' = count s ∧ trace s' = trace s ∧ mem s' = mem s
  ∧ memlen s' = memlen s ∧ stdout s' = stdout s ∧ stdin s' = stdin s.
Proof.
  unfold inp_remain.
  destruct (str_index r 0) as [c|e]; cbn; [|discriminate].
  destruct (_ =? 0); intros [= _ <-]; by repeat split.
Qed.

Lemma inp_inv (prompt : string) (s : bfg) (b : bool) (s' : bfg) :
  inp prompt false s = Ok (b, s') →
  same_program s s' ∧ pc s' = pc s ∧ sr s' = sr s ∧ loops s' = loops s
  ∧ count s' = count s ∧ trace s' = trace s ∧ mem s' = mem s
  ∧ memlen s' = memlen s ∧ stdout s' = stdout s.
Proof.
  unfold inp, input.
  destruct (remain s) as [r|].
  - intros H. apply inp_remain_inv in H.
    destruct H as ((? & ? & ? & ? & ?) & ? & ? & ? & ? & ? & ? & ? & ? & _).
    by repeat split.
  - destruct (stdin s) as [|line rest].
    + intros [= _ <-]. by repeat split.
    + intros H. apply inp_remain_inv in H. cbn in H.
      destruct H as ((? & ? & ? & ? & ?) & ? & ? & ? & ? & ? & ? & ? & ? & _).
      by repeat split.
Qed.

Lemma inout_inv (s s' : bfg) (b : bool) :
  inout s = Ok (b, s') →
  same_program s s' ∧ pc s' = pc s ∧ sr s' = sr s ∧ loops s' = loops s
  ∧ count s' = count s ∧ memlen s' = memlen s ∧ length (mem s') = length (mem s).
Proof.
  unfold inout. set (r := inp _ false s). assert (Hr : r = inp (String "010" "?> ") false s) by done.
  clearbody r.
  destruct (instruction None s) as [cur|e]; cbn; [|discriminate].
  case_bool_decide.
  - destruct (value s) as [v|e]; cbn; [|discriminate].
    destruct (chr v) as [o|e]; cbn; [|discriminate].
    destruct (debug s), (stdout s); intros [= _ <-]; by repeat split.
  - case_bool_decide; [|intros [= _ <-]; by repeat split].
    destruct r as [[got s1]|e]; cbn; [|discriminate]. symmetry in Hr. rename Hr into Hinp.
    apply inp_inv in Hinp as (Hp & Hpc & Hsr & Hl & Hc & _ & Hm & Hml & _).
    destruct got; cbn.
    + destruct (buf s1) as [bf|]; [|discriminate].
      destruct (ord bf) as [c|e]; cbn; [|discriminate].
      destruct (value_set c s1) as [s2|e] eqn:Hv; cbn; [|discriminate].
      intros [= _ <-]. apply value_set_inv in Hv as (n & _ & ->). cbn.
      rewrite length_insert, Hm.
      destruct Hp as (? & ? & ? & ? & ?). by repeat split.
    + intros [= _ <-]. rewrite Hm.
      destruct Hp as (? & ? & ? & ? & ?). by repeat split.
Qed.

(** ** Comments *)

Lemma set_pc_same (s : bfg) : set_pc (pc s) s = s.
Proof. by destruct s. Qed.

Lemma ignoreUntil_loop_spec (n : nat) (until : Z) (s s' : bfg) :
  (Z.to_nat (inslen s - pc s) < n)%nat →
  ignoreUntil_loop n until s = Ok s' →
  s' = set_pc (pc s') s
  ∧ pc s ≤ pc s'
  ∧ (instruction None s' = Ok (Some until) ∨ (inslen s ≤ pc s' ∧ pc s' = Z.max (pc s + 1) (inslen s)))
  ∧ ∀ i, pc s ≤ i < pc s' → instruction None (set_pc i s) ≠ Ok (Some until).
Proof.
  revert s. induction n as [|n IH]; intros s Hn; [lia|]. cbn.
  destruct (instruction None s) as [cur|e] eqn:Hcur; cbn; [|discriminate].
  case_bool_decide as Hne.
  - destruct (Z.ltb_spec (pc s + 1) (inslen s)) as [Hlt | Hge].
    + intros Hrec. apply IH in Hrec as (Heq & Hle & Hstop & Hskip); [|cbn; lia].
      cbn in *. split; [exact Heq|]. split; [lia|]. split.
      * destruct Hstop as [? | [? ?]]; [by left | right; lia].
      * intros i Hi. destruct (decide (i = pc s)) as [-> | ?].
        -- change (instruction None (set_pc (pc s) s)) with (instruction None s).
           rewrite Hcur. congruence.
        -- apply (Hskip i). lia.
    + intros [= <-]. cbn. split; [done|]. split; [lia|]. split; [right; lia|].
      intros i Hi. assert (i = pc s) as -> by lia.
      change (instruction None (set_pc (pc s) s)) with (instruction None s).
      rewrite Hcur. congruence.
  - intros [= <-]. split; [by rewrite set_pc_same|]. split; [lia|]. split.
    + left. rewrite Hcur. f_equal. by destruct (decide (cur = Some until)).
    + intros i Hi. lia.
Qed.

Lemma ignoreUntil_inv (s s' : bfg) :
  ignoreUntil None s = Ok s' →
  s' = set_pc (pc s') s ∧ pc s ≤ pc s'.
Proof.
  unfold ignoreUntil. intros H.
  apply ignoreUntil_loop_spec in H as (? & ? & _); [done | lia].
Qed.

(** ** The frame of a step *)

Ltac frame :=
  repeat match goal with
         | H : same_program _ _ |- _ => destruct H as (? & ? & ? & ? & ?)
         end;
  repeat split; intros; cbn in *; try done; try congruence; try lia.

Lemma dbg_frame (report : bool) (s s' : bfg) :
  dbg report s = Ok s' →
  same_program s s' ∧ same_tape s s' ∧ pc s' = pc s ∧ loops s' = loops s
  ∧ count s' = count s + 1 ∧ stdin s' = stdin s ∧ remain s' = remain s
  ∧ stdout s' = stdout s.
Proof.
  unfold dbg. set (s0 := set_count (count s + 1) s).
  assert (Hs0 : ∀ u, u = s0 ∨ (∃ e, u = emit e s0) →
                     same_program s u ∧ same_tape s u ∧ pc u = pc s ∧ loops u = loops s
                     ∧ count u = count s + 1 ∧ stdin u = stdin s ∧ remain u = remain s
                     ∧ stdout u = stdout s)
    by (intros u [-> | [e ->]]; by repeat split).
  destruct (debug s0); [destruct report|].
  - intros [= <-]. apply Hs0. eauto.
  - destruct (instruction None s0) as [[c|]|e]; cbn; try discriminate.
    + destruct (value s0) as [v|e]; cbn; [|discriminate].
      intros [= <-]. apply Hs0. eauto.
    + intros [= <-]. apply Hs0. eauto.
  - intros [= <-]. apply Hs0. eauto.
Qed.

Lemma call_inv (h : handler) (s s' : bfg) (b : bool) :
  call h s = Ok (b, s') →
  same_program s s' ∧ count s' = count s
  ∧ (∀ k, is_Some (loops s !! k) → is_Some (loops s' !! k))
  ∧ (h ≠ Hloop → pc s ≤ pc s' ∧ loops s' = loops s).
Proof.
  destruct h; cbn [call].
  - destruct (loop s) as [s1|e] eqn:Hl; cbn; [|discriminate]. intros [= _ <-].
    apply loop_inv in Hl as (? & _ & ? & _ & _ & _ & _ & ?). frame. eauto.
  - destruct (ptr s) as [s1|e] eqn:Hp; cbn; [|discriminate]. intros [= _ <-].
    apply ptr_inv in Hp as (? & Hpc & Hl & ? & _). rewrite Hl. frame.
  - destruct (byte s) as [s1|e] eqn:Hb; cbn; [|discriminate]. intros [= _ <-].
    apply byte_inv in Hb as (? & Hpc & _ & Hl & ? & _). rewrite Hl. frame.
  - intros Hio. apply inout_inv in Hio as (? & Hpc & _ & Hl & ? & _). rewrite Hl. frame.
  - destruct (ignoreUntil None s) as [s1|e] eqn:Hi; cbn; [|discriminate]. intros [= _ <-].
    apply ignoreUntil_inv in Hi as (Heq & ?). rewrite Heq. frame.
Qed.

Lemma step_inv (s s' : bfg) (b : bool) :
  step s = Ok (b, s') →
  same_program s s'
  ∧ (∀ k, is_Some (loops s !! k) → is_Some (loops s' !! k))
  ∧ (b = false → pc s' < inslen s')
  ∧ (∀ cur, instruction None s = Ok cur → action cur ≠ Some Hloop →
       pc s ≤ pc s' ∧ (b = false → pc s < pc s')).
Proof.
  unfold step, translate.
  destruct (instruction None s) as [cur|e]; cbn; [|discriminate].
  assert (Hcall : ∀ stop s1,
             (match action cur with Some h => call h s | None => Ok (false, s) end)
             = Ok (stop, s1) →
             same_program s s1 ∧ (∀ k, is_Some (loops s !! k) → is_Some (loops s1 !! k))
             ∧ (action cur ≠ Some Hloop → pc s ≤ pc s1)).
  { intros stop s1. destruct (action cur) as [h|].
    - intros Hc. apply call_inv in Hc as (? & _ & ? & Hh).
      split; [done|]. split; [done|]. intros Hne. apply Hh. congruence.
    - intros [= _ <-]. frame. }
  destruct (match action cur with Some h => call h s | None => Ok (false, s) end)
    as [[stop s1]|e]; cbn; [|discriminate].
  destruct (Hcall stop s1 eq_refl) as (Hp & Hk & Hpc). clear Hcall.
  destruct stop.
  - intros [= <- <-]. split; [done|]. split; [done|]. split; [done|].
    intros cur' [= <-] Hne. split; [by apply Hpc | done].
  - destruct (dbg false s1) as [s2|e] eqn:Hd; cbn; [|discriminate].
    apply dbg_frame in Hd as (Hp2 & _ & Hpc2 & Hl2 & _).
    intros [= <- <-]. cbn. split; [frame|]. split.
    + intros k Hk'. rewrite Hl2. by apply Hk.
    + split.
      * intros Hb. apply negb_false_iff in Hb. lia.
      * intros cur' [= <-] Hne. specialize (Hpc Hne). lia.
Qed.

(** ** The symbols that have a handler *)

Lemma action_Some (c : Z) (h : handler) :
  action (Some c) = Some h ↔ c = lang_left h ∨ c = lang_right h.
Proof.
  split.
  - unfold action. cbn. repeat case_decide; cbn; intros Heq; try discriminate;
      injection Heq as <-; assumption.
  - intros [-> | ->]; by destruct h.
Qed.

Lemma action_None (c : Z) :
  action (Some c) = None ↔ ∀ h, c ≠ lang_left h ∧ c ≠ lang_right h.
Proof.
  split.
  - intros Hn h. split; intros Hc;
      (assert (action (Some c) = Some h) as Ha by (apply action_Some; auto));
      congruence.
  - intros Hall. destruct (action (Some c)) as [h|] eqn:Ha; [|done].
    apply action_Some in Ha. destruct (Hall h). tauto.
Qed.

Lemma tape_ok_value (s : bfg) : tape_ok s → ∃ v, value s = Ok v ∧ v ∈ mem s.
Proof.
  intros [Hsr Hlen]. unfold value, list_index, py_index.
  destruct (Z.ltb_spec (sr s) 0); [lia|].
  destruct (Z.leb_spec 0 (sr s)); [|lia].
  destruct (Z.ltb_spec (sr s) (Z.of_nat (length (mem s)))); [|lia]. cbn.
  destruct (lookup_lt_is_Some_2 (mem s) (Z.to_nat (sr s))) as [v Hv]; [lia|].
  rewrite Hv. exists v. split; [done|]. by eapply list_elem_of_lookup_2.
Qed.

(** X1.  A symbol outside the language table (any character that is neither
    a bracket, a pointer move, a cell change, an I/O symbol, [#] nor a
    newline) does nothing: [translate] returns the state as it was, and the
    step only counts itself and moves the program counter by one. *)
Theorem inert_symbol_skipped (s : bfg) (c : Z) :
  tape_ok s →
  instruction None s = Ok (Some c) →
  (∀ h, c ≠ lang_left h ∧ c ≠ lang_right h) →
  translate s = Ok (false, s)
  ∧ ∃ s', step s = Ok (negb (pc s + 1 <? inslen s), s')
          ∧ pc s' = pc s + 1 ∧ count s' = count s + 1
          ∧ same_tape s s' ∧ loops s' = loops s
          ∧ stdin s' = stdin s ∧ stdout s' = stdout s.
Proof.
  intros Hok Hi Hinert.
  assert (Ht : translate s = Ok (false, s)).
  { unfold translate. rewrite Hi, bind_Ok.
    by rewrite (proj2 (action_None c) Hinert). }
  split; [exact Ht|].
  destruct (tape_ok_value s Hok) as (v & Hv & _).
  destruct (dbg_false_Ok s c v Hi Hv) as (s1 & Hd & _).
  pose proof (dbg_frame false s s1 Hd)
    as ((_ & _ & _ & _ & Hlen) & Htape & Hpc & Hl & Hc & Hin & _ & Hout).
  unfold step. rewrite Ht, bind_Ok. cbv beta iota. rewrite Hd, bind_Ok. cbn.
  rewrite Hpc, Hlen. eexists. split; [reflexivity|].
  cbn. destruct Htape as (? & ? & ? & ?). by repeat split.
Qed.

Lemma inert_symbol_skipped_witness :
  tape_ok (load (text "a+") fresh)
  ∧ instruction None (load (text "a+") fresh) = Ok (Some (sym "a"))
  ∧ (∀ h, (sym "a") ≠ lang_left h ∧ (sym "a") ≠ lang_right h)
  ∧ translate (load (text "a+") fresh) = Ok (false, load (text "a+") fresh).
Proof.
  assert (Hok : tape_ok (load (text "a+") fresh)) by (repeat split; by vm_compute).
  assert (Hin : ∀ h, (sym "a") ≠ lang_left h ∧ (sym "a") ≠ lang_right h)
    by (intros h; by destruct h).
  split; [exact Hok|]. split; [reflexivity|]. split; [exact Hin|].
  exact (proj1 (inert_symbol_skipped (load (text "a+") fresh) (sym "a") Hok eq_refl Hin)).
Defined.

(** ** Dangling brackets *)

Lemma range_backward (start i : Z) :
  i ∈ range start 0 (-1) → 1 ≤ i ≤ start.
Proof.
  unfold range. cbn. intros H.
  apply list_elem_of_fmap in H as (k & -> & Hk).
  apply elem_of_seq in Hk.
  replace (start - 0 - -1 - 1) with start in Hk by lia.
  rewrite Z.div_1_r in Hk. lia.
Qed.

Lemma scan_none (char : Z) (l : list Z) (s : bfg) (cnt : Z) :
  is_Some (match instruction None s with Ok cur => Some cur | Raise _ => None end) →
  (∀ i, i ∈ l → ∃ a, instruction (Some i) s = Ok a ∧ a ≠ Some char) →
  scan char cnt l s = Ok None.
Proof.
  intros Hcur. destruct (instruction None s) as [cur|e] eqn:Hi; [|by destruct Hcur].
  revert cnt. induction l as [|j l IH]; intros cnt Hl; [done|]. cbn.
  destruct (Hl j) as (a & Ha & Hne); [by left|].
  rewrite Ha, Hi. cbn.
  assert (Hl' : ∀ i, i ∈ l → ∃ a, instruction (Some i) s = Ok a ∧ a ≠ Some char)
    by (intros i Hin; apply Hl; by right).
  case_bool_decide; [by apply IH|].
  rewrite bool_decide_eq_false_2 by done. by apply IH.
Qed.

(** X2.  A bracket without a partner is a syntax error.  In a well-formed
    state, an opening bracket with no closing bracket after it, and a
    closing bracket with no opening bracket at the positions its scan visits
    (1 to [pc + 1]), make [registerLoop] raise the dangling-bracket error
    with the symbol and its position; with the position not in the loop
    table yet, the step of the dispatcher raises it too. *)
Theorem registerLoop_dangling (s : bfg) (prog : list Z) :
  prog_ok prog s →
  (instruction None s = Ok (Some (sym "[")) →
   (∀ n, (Z.to_nat (pc s) < n)%nat → prog !! n ≠ Some (sym "]")) →
   registerLoop s = Raise (BrainFuckingGoneError (Dangling (Some (sym "[")) (pc s)))
   ∧ (loops s !! pc s = None →
      step s = Raise (BrainFuckingGoneError (Dangling (Some (sym "[")) (pc s)))))
  ∧ (instruction None s = Ok (Some (sym "]")) →
     (∀ n, (1 ≤ n ≤ Z.to_nat (pc s) + 1)%nat → prog !! n ≠ Some (sym "[")) →
     registerLoop s = Raise (BrainFuckingGoneError (Dangling (Some (sym "]")) (pc s)))
     ∧ (loops s !! pc s = None →
        step s = Raise (BrainFuckingGoneError (Dangling (Some (sym "]")) (pc s))))).
Proof.
  intros Hok.
  assert (Hstep : ∀ c e, instruction None s = Ok (Some c) →
                         action (Some c) = Some Hloop →
                         registerLoop s = Raise e → loops s !! pc s = None →
                         step s = Raise e).
  { intros c e Hi Ha Hreg Hnone. unfold step, translate.
    rewrite Hi, bind_Ok, Ha. cbn [call]. unfold loop. by rewrite Hnone, Hreg. }
  split; intros Hi Hfree.
  - assert (Hreg : registerLoop s
                   = Raise (BrainFuckingGoneError (Dangling (Some (sym "[")) (pc s)))).
    { unfold registerLoop. rewrite Hi, bind_Ok. decide_syms.
      rewrite scan_none; [done | by rewrite Hi |].
      intros i Hin. apply range_forward in Hin.
      destruct Hok as (? & ? & ?).
      rewrite (instruction_at s prog i) by (done || lia).
      eexists. split; [done|]. apply Hfree. lia. }
    split; [exact Hreg|]. by apply (Hstep (sym "[")).
  - assert (Hreg : registerLoop s
                   = Raise (BrainFuckingGoneError (Dangling (Some (sym "]")) (pc s)))).
    { unfold registerLoop. rewrite Hi, bind_Ok. decide_syms.
      rewrite scan_none; [done | by rewrite Hi |].
      intros i Hin. apply range_backward in Hin.
      destruct Hok as (? & ? & ?).
      rewrite (instruction_at s prog i) by (done || lia).
      eexists. split; [done|]. apply Hfree. lia. }
    split; [exact Hreg|]. by apply (Hstep (sym "]")).
Qed.

Lemma registerLoop_dangling_witness :
  (prog_ok (text "+[-") (set_pc 1 (load (text "+[-") fresh))
   ∧ instruction None (set_pc 1 (load (text "+[-") fresh)) = Ok (Some (sym "["))
   ∧ step (set_pc 1 (load (text "+[-") fresh))
     = Raise (BrainFuckingGoneError (Dangling (Some (sym "[")) 1)))
  ∧ (prog_ok (text "]") (load (text "]") fresh)
     ∧ instruction None (load (text "]") fresh) = Ok (Some (sym "]"))
     ∧ step (load (text "]") fresh) = Raise (BrainFuckingGoneError (Dangling (Some (sym "]")) 0))).
Proof.
  assert (H1 : prog_ok (text "+[-") (set_pc 1 (load (text "+[-") fresh))) by (by repeat split).
  assert (H2 : prog_ok (text "]") (load (text "]") fresh)) by (by repeat split).
  split.
  - split; [exact H1|]. split; [reflexivity|].
    refine (proj2 (proj1 (registerLoop_dangling _ _ H1) eq_refl _) eq_refl).
    intros [|[|[|[|n]]]] Hn; cbn in *; (lia || discriminate).
  - split; [exact H2|]. split; [reflexivity|].
    refine (proj2 (proj2 (registerLoop_dangling _ _ H2) eq_refl _) eq_refl).
    intros [|[|n]] Hn; cbn in *; (lia || discriminate).
Defined.

(** ** The forward scan finds the balancing bracket *)

Lemma count_sym_cons (c : Z) (j : Z) (l : list Z) (s : bfg) :
  count_sym c (j :: l) s
  = ((if decide (instruction (Some j) s = Ok (Some c)) then 1 else 0) + count_sym c l s)%nat.
Proof. unfold count_sym. rewrite filter_cons. by case_decide. Qed.

Lemma scan_balanced (char cur : Z) (l : list Z) (s : bfg) (cnt i : Z) :
  instruction None s = Ok (Some cur) →
  cur ≠ char →
  0 ≤ cnt →
  scan char cnt l s = Ok (Some i) →
  ∃ l1 l2, l = (l1 ++ i :: l2)%list
    ∧ instruction (Some i) s = Ok (Some char)
    ∧ cnt + Z.of_nat (count_sym cur l1 s) = Z.of_nat (count_sym char l1 s)
    ∧ ∀ k, Z.of_nat (count_sym char (take k l1) s)
           ≤ cnt + Z.of_nat (count_sym cur (take k l1) s).
Proof.
  intros Hcur Hne. revert cnt.
  induction l as [|j l IH]; intros cnt Hcnt; cbn; [discriminate|].
  destruct (instruction (Some j) s) as [a|e] eqn:Ha; cbn; [|discriminate].
  rewrite Hcur. cbn.
  assert (Hext : ∀ cnt' dcur dchar l1 l2,
    count_sym cur [j] s = dcur → count_sym char [j] s = dchar →
    cnt + Z.of_nat dcur = cnt' + Z.of_nat dchar → 0 ≤ cnt' →
    l = (l1 ++ i :: l2)%list →
    instruction (Some i) s = Ok (Some char) →
    cnt' + Z.of_nat (count_sym cur l1 s) = Z.of_nat (count_sym char l1 s) →
    (∀ k, Z.of_nat (count_sym char (take k l1) s)
          ≤ cnt' + Z.of_nat (count_sym cur (take k l1) s)) →
    ∃ l1 l2, j :: l = (l1 ++ i :: l2)%list
      ∧ instruction (Some i) s = Ok (Some char)
      ∧ cnt + Z.of_nat (count_sym cur l1 s) = Z.of_nat (count_sym char l1 s)
      ∧ ∀ k, Z.of_nat (count_sym char (take k l1) s)
             ≤ cnt + Z.of_nat (count_sym cur (take k l1) s)).
  { intros cnt' dcur dchar l1 l2 Hdcur Hdchar Hbal Hcnt' -> Hi Heq Hpre.
    rewrite count_sym_cons in Hdcur, Hdchar. cbn in Hdcur, Hdchar.
    exists (j :: l1), l2. split; [done|]. split; [done|].
    rewrite !count_sym_cons. split; [lia|].
    intros [|k]; [unfold count_sym; cbn; lia|]. cbn [take].
    rewrite !count_sym_cons. specialize (Hpre k). lia. }
  case_bool_decide as Hacur.
  - intros Hrec. apply IH in Hrec as (l1 & l2 & Hl & Hi & Heq & Hpre); [|lia].
    eapply (Hext (cnt + 1) 1%nat 0%nat); try done; try lia.
    + rewrite count_sym_cons, Ha, Hacur. by rewrite decide_True.
    + rewrite count_sym_cons, Ha, Hacur. rewrite decide_False; [done|congruence].
  - case_bool_decide as Hachar.
    + destruct (Z.ltb_spec 0 cnt).
      * intros Hrec. apply IH in Hrec as (l1 & l2 & Hl & Hi & Heq & Hpre); [|lia].
        eapply (Hext (cnt - 1) 0%nat 1%nat); try done; try lia.
        -- rewrite count_sym_cons, Ha, Hachar. rewrite decide_False; [done|congruence].
        -- rewrite count_sym_cons, Ha, Hachar. by rewrite decide_True.
      * intros [= ->]. exists [], l. split; [done|]. split; [by rewrite Ha, Hachar|].
        split; [unfold count_sym; cbn; lia|].
        intros k. rewrite take_nil. unfold count_sym. cbn. lia.
    + intros Hrec. apply IH in Hrec as (l1 & l2 & Hl & Hi & Heq & Hpre); [|lia].
      eapply (Hext cnt 0%nat 0%nat); try done; try lia.
      * rewrite count_sym_cons, Ha. rewrite decide_False; [done|congruence].
      * rewrite count_sym_cons, Ha. rewrite decide_False; [done|congruence].
Qed.

Lemma range_seqZ (a b : Z) : range a b 1 = seqZ a (b - a).
Proof.
  unfold range, seqZ. cbn.
  replace (b - a + 1 - 1) with (b - a) by lia. rewrite Z.div_1_r.
  apply list_fmap_ext. intros _ k _. lia.
Qed.

Lemma seqZ_split (a n m : Z) (l1 l2 : list Z) :
  seqZ a n = (l1 ++ m :: l2)%list →
  m = a + Z.of_nat (length l1) ∧ l1 = seqZ a (m - a) ∧ m < a + n.
Proof.
  intros Hl.
  assert (Hlen : (length l1 < Z.to_nat n)%nat).
  { rewrite <- (length_seqZ a n), Hl, length_app. cbn. lia. }
  assert (Hm : m = a + Z.of_nat (length l1)).
  { assert (Hlook : seqZ a n !! length l1 = Some m)
      by (rewrite Hl; by apply list_lookup_middle).
    by apply lookup_seqZ in Hlook as [-> _]. }
  split; [exact Hm|]. split; [|lia].
  replace n with (Z.of_nat (length l1) + (n - Z.of_nat (length l1))) in Hl by lia.
  rewrite seqZ_app in Hl by lia.
  apply app_inj_1 in Hl as [Hl1 _]; [|by rewrite length_seqZ, Nat2Z.id].
  rewrite <- Hl1. f_equal. lia.
Qed.

Lemma take_seqZ (a n : Z) (k : nat) :
  Z.of_nat k ≤ n → take k (seqZ a n) = seqZ a (Z.of_nat k).
Proof.
  intros Hk. replace n with (Z.of_nat k + (n - Z.of_nat k)) by lia.
  rewrite seqZ_app by lia. apply take_app_length'. by rewrite length_seqZ, Nat2Z.id.
Qed.

(** X3.  Resolving an opening bracket pairs it with the closing bracket
    that balances it: the recorded position [m] is further on and holds a
    closing bracket, between the two there are as many opening as closing
    brackets, no earlier closing bracket is left unmatched (up to any
    position [j] before [m] there are at least as many opening as closing
    ones), and the table holds the pair in both directions. *)
Theorem registerLoop_opening_balanced (s s' : bfg) :
  instruction None s = Ok (Some (sym "[")) →
  registerLoop s = Ok s' →
  ∃ m, pc s < m < inslen s
       ∧ instruction (Some m) s = Ok (Some (sym "]"))
       ∧ loops s' !! pc s = Some m ∧ loops s' !! m = Some (pc s)
       ∧ count_sym (sym "[") (range (pc s + 1) m 1) s = count_sym (sym "]") (range (pc s + 1) m 1) s
       ∧ ∀ j, pc s < j ≤ m →
              (count_sym (sym "]") (range (pc s + 1) j 1) s
               ≤ count_sym (sym "[") (range (pc s + 1) j 1) s)%nat.
Proof.
  intros Hi Hreg.
  destruct (registerLoop_opening s s' Hi Hreg) as (m & Hm & Hsym & Hl1 & Hl2).
  assert (Hs : scan (sym "]") 0 (range (pc s + 1) (inslen s) 1) s = Ok (Some m)).
  { revert Hreg. unfold registerLoop. rewrite Hi, bind_Ok. decide_syms.
    destruct (scan _ _ _ _) as [[m'|]|e]; cbn; rewrite ?Hi; try discriminate.
    intros [= <-]. cbn in Hl1.
    destruct (decide (m' = pc s)) as [-> | Hne].
    - rewrite lookup_insert_eq in Hl1. injection Hl1 as <-. lia.
    - rewrite lookup_insert_ne, lookup_insert_eq in Hl1 by done. congruence. }
  exists m. do 4 (split; [done|]).
  apply (scan_balanced (sym "]") (sym "[")) in Hs as (l1 & l2 & Hl & _ & Hbal & Hpre); [|done..].
  rewrite range_seqZ in Hl. apply seqZ_split in Hl as (Hmeq & -> & _).
  rewrite !range_seqZ. split; [lia|].
  intros j Hj. rewrite range_seqZ.
  specialize (Hpre (Z.to_nat (j - (pc s + 1)))).
  rewrite take_seqZ in Hpre by lia.
  rewrite Z2Nat.id in Hpre by lia. lia.
Qed.

Lemma registerLoop_opening_balanced_witness :
  instruction None (load (text "[[-]+]") fresh) = Ok (Some (sym "["))
  ∧ (∃ s', registerLoop (load (text "[[-]+]") fresh) = Ok s')
  ∧ ∃ s' m, registerLoop (load (text "[[-]+]") fresh) = Ok s'
            ∧ loops s' !! 0 = Some m ∧ 0 < m < 6
            ∧ count_sym (sym "[") (range 1 m 1) (load (text "[[-]+]") fresh)
              = count_sym (sym "]") (range 1 m 1) (load (text "[[-]+]") fresh).
Proof.
  split; [reflexivity|].
  assert (Hreg : ∃ s', registerLoop (load (text "[[-]+]") fresh) = Ok s')
    by (eexists; vm_compute; reflexivity).
  split; [exact Hreg|]. destruct Hreg as [s' Hreg].
  destruct (registerLoop_opening_balanced (load (text "[[-]+]") fresh) s' eq_refl Hreg)
    as (m & Hm & _ & Hl & _ & Hbal & _).
  exists s', m. split; [exact Hreg|]. split; [exact Hl|]. split; [exact Hm | exact Hbal].
Defined.

(** X4.  Resolving a closing bracket records an opening bracket at one of
    the positions 1 to [pc + 1], in both directions: position 0 is never
    the partner found by the backward scan. *)
Theorem registerLoop_closing_bounds (s s' : bfg) :
  instruction None s = Ok (Some (sym "]")) →
  registerLoop s = Ok s' →
  ∃ m, 1 ≤ m ≤ pc s + 1
       ∧ instruction (Some m) s = Ok (Some (sym "["))
       ∧ loops s' !! pc s = Some m ∧ loops s' !! m = Some (pc s).
Proof.
  intros Hi. unfold registerLoop. rewrite Hi, bind_Ok. decide_syms.
  destruct (scan _ _ _ _) as [[m|]|e] eqn:Hs; cbn; rewrite ?Hi; try discriminate.
  intros [= <-]. apply scan_found in Hs as [Hin Hm].
  apply range_backward in Hin. exists m. cbn.
  assert (m ≠ pc s).
  { intros ->. revert Hm. unfold instruction in *.
    destruct (Z.eqb_spec (pc s) 0); [lia|]. rewrite Hi. discriminate. }
  repeat split; try lia; try done.
  - rewrite lookup_insert_ne by done. by rewrite lookup_insert_eq.
  - by rewrite lookup_insert_eq.
Qed.

Lemma registerLoop_closing_bounds_witness :
  instruction None on_closing_first = Ok (Some (sym "]"))
  ∧ ∃ s' m, registerLoop on_closing_first = Ok s'
            ∧ 1 ≤ m ≤ 1 ∧ loops s' !! m = Some 0.
Proof.
  split; [reflexivity|].
  assert (Hreg : ∃ s', registerLoop on_closing_first = Ok s')
    by (eexists; vm_compute; reflexivity).
  destruct Hreg as [s' Hreg].
  destruct (registerLoop_closing_bounds on_closing_first s' eq_refl Hreg) as (m & Hm & _ & _ & Hl).
  exists s', m. split; [exact Hreg|]. split; [exact Hm | exact Hl].
Defined.

(** ** Resetting *)

Lemma reset_fresh (force : bool) (s : bfg) :
  force = true ∨ keep s = false →
  let s' := reset force s in
  pc s' = 0 ∧ sr s' = 0 ∧ loops s' = ∅ ∧ count s' = 0 ∧ ins s' = None ∧ inslen s' = 0
  ∧ buf s' = None
  ∧ mem s' = replicate (Z.to_nat (if strict s then memmax else 1)) 0
  ∧ memlen s' = (if strict s then memmax else 1)
  ∧ tape_ok s' ∧ strict s' = strict s ∧ keep s' = keep s ∧ debug s' = debug s
  ∧ trace s' = trace s ∧ stdin s' = stdin s ∧ stdout s' = stdout s ∧ remain s' = remain s.
Proof.
  intros Hf. unfold reset.
  assert (force || negb (keep (set_buf None s)) = true) as ->
    by (destruct Hf as [-> | Hk]; [done | cbn; rewrite Hk; by destruct force]).
  cbv zeta. unfold tape_ok. cbn [pc sr loops count ins inslen buf mem memlen strict keep debug
    trace stdin stdout remain set_memlen set_inslen set_mem set_pc set_sr set_loops set_ins
    set_count set_buf].
  destruct (strict s); cbn [negb]; rewrite ?length_replicate;
    repeat split; try done; unfold memmax; lia.
Qed.

Lemma execute_loop_inv (fuel : nat) (s t : bfg) :
  execute_loop fuel s = Some (Ok t) →
  same_program s t ∧ ∀ k, is_Some (loops s !! k) → is_Some (loops t !! k).
Proof.
  revert s. induction fuel as [|fuel IH]; intros s; cbn; [discriminate|].
  destruct (step s) as [[[] s1]|e] eqn:Hstep; try discriminate.
  - intros [= <-]. apply step_inv in Hstep as (? & ? & _). done.
  - intros Hrec. apply IH in Hrec as (Hp & Hk).
    apply step_inv in Hstep as (Hp1 & Hk1 & _).
    split; [by eapply same_program_trans|]. intros k Hs. by apply Hk, Hk1.
Qed.

(** X5.  What survives an execution.  Without persistence every execution
    that ends without an error leaves a fresh interpreter: program counter,
    pointer and step counter at 0, no program, an empty loop table and a
    zeroed tape of the initial size (1 cell, or 30000 in strict mode), which
    is well formed.  With persistence the program text, its length and the
    flags are what they were, and every position resolved in the loop table
    before is still resolved. *)
Theorem execute_resets (fuel : nat) (s s' : bfg) :
  execute false fuel s = Some (Ok s') →
  (keep s = false →
     pc s' = 0 ∧ sr s' = 0 ∧ count s' = 0 ∧ loops s' = ∅
     ∧ ins s' = None ∧ inslen s' = 0
     ∧ mem s' = replicate (Z.to_nat (if strict s then 30000 else 1)) 0
     ∧ tape_ok s')
  ∧ (keep s = true →
       same_program s s'
       ∧ ∀ k, is_Some (loops s !! k) → is_Some (loops s' !! k)).
Proof.
  unfold execute.
  destruct (execute_loop fuel s) as [[t|e]|] eqn:Hloop; cbn; try discriminate.
  rewrite dbg_report. cbn. intros [= <-].
  apply execute_loop_inv in Hloop as (Hp & Hk).
  assert (Hrep : same_program t (reported t) ∧ loops (reported t) = loops t)
    by (unfold reported; cbn; destruct (debug t); by repeat split).
  destruct Hrep as (Hp' & Hl').
  pose proof (same_program_trans _ _ _ Hp Hp') as (Hkeep & Hstrict & Hrest).
  split; intros Hks.
  - destruct (reset_fresh false (reported t)) as
      (? & ? & ? & ? & ? & ? & _ & Hmem & _ & ? & _); [right; congruence|].
    rewrite Hstrict in Hmem. do 6 (split; [done|]). split; [exact Hmem | done].
  - rewrite reset_keep by congruence. split.
    + destruct Hrest as (? & ? & ?). by repeat split.
    + intros k Hsome. cbn. rewrite Hl'. by apply Hk.
Qed.

Lemma execute_resets_witness :
  (∃ s', execute false 2 (load (text "+>") fresh) = Some (Ok s'))
  ∧ keep (load (text "+>") fresh) = false
  ∧ ∃ s', execute false 2 (load (text "+>") fresh) = Some (Ok s') ∧ mem s' = [0] ∧ pc s' = 0.
Proof.
  assert (Hex : ∃ s', execute false 2 (load (text "+>") fresh) = Some (Ok s'))
    by (eexists; vm_compute; reflexivity).
  split; [exact Hex|]. split; [reflexivity|]. destruct Hex as [s' Hex].
  destruct (proj1 (execute_resets 2 (load (text "+>") fresh) s' Hex) eq_refl)
    as (Hpc & _ & _ & _ & _ & _ & Hmem & _).
  exists s'. split; [exact Hex|]. split; [exact Hmem | exact Hpc].
Defined.

(** ** Programs without loops terminate *)

Lemma prog_ok_step (prog : list Z) (s s' : bfg) :
  prog_ok prog s → same_program s s' → pc s ≤ pc s' → prog_ok prog s'.
Proof.
  intros (Hins & Hlen & Hpc) (_ & _ & _ & Hins' & Hlen') Hle.
  repeat split; [congruence | congruence | lia].
Qed.

(** X6.  A program without brackets cannot loop: from a well-formed state
    whose program holds neither [[] nor []], the loop of [execute] ends, by
    a halt or by an error, within [inslen - pc + 1] steps. *)
Theorem bracket_free_terminates (prog : list Z) (s : bfg) (fuel : nat) :
  prog_ok prog s →
  ¬ occurs (sym "[") prog →
  ¬ occurs (sym "]") prog →
  (Z.to_nat (inslen s - pc s) < fuel)%nat →
  ∃ r, execute_loop fuel s = Some r.
Proof.
  intros Hok Hopen Hclose. revert s Hok.
  induction fuel as [|fuel IH]; intros s Hok Hfuel; [lia|]. cbn.
  destruct (step s) as [[[] s1]|e] eqn:Hstep; [eauto | | eauto].
  apply step_inv in Hstep as (Hp & _ & Hlt & Hadv).
  specialize (Hlt eq_refl).
  destruct (Hadv _ (instruction_current s prog Hok)) as [Hle Hpc].
  { destruct (prog !! Z.to_nat (pc s)) as [c|] eqn:Hc; [|done].
    intros Ha. apply action_Some in Ha as [-> | ->].
    - by apply Hopen, (get_occurs _ _ _ Hc).
    - by apply Hclose, (get_occurs _ _ _ Hc). }
  specialize (Hpc eq_refl).
  apply IH; [by eapply prog_ok_step|].
  destruct Hp as (_ & _ & _ & _ & Hlen). lia.
Qed.

Lemma bracket_free_terminates_witness :
  prog_ok (text "+>,.") (load (text "+>,.") fresh)
  ∧ ¬ occurs (sym "[") (text "+>,.") ∧ ¬ occurs (sym "]") (text "+>,.")
  ∧ (Z.to_nat (inslen (load (text "+>,.") fresh) - pc (load (text "+>,.") fresh)) < 5)%nat
  ∧ ∃ r, execute_loop 5 (load (text "+>,.") fresh) = Some r.
Proof.
  assert (Hok : prog_ok (text "+>,.") (load (text "+>,.") fresh)) by (by repeat split).
  assert (Ho : ¬ occurs (sym "[") (text "+>,."))
    by (intros H; apply (bool_decide_pack _) in H; by vm_compute in H).
  assert (Hc : ¬ occurs (sym "]") (text "+>,."))
    by (intros H; apply (bool_decide_pack _) in H; by vm_compute in H).
  assert (Hf : (Z.to_nat (inslen (load (text "+>,.") fresh) - pc (load (text "+>,.") fresh)) < 5)%nat)
    by (vm_compute; lia).
  split; [exact Hok|]. split; [exact Ho|]. split; [exact Hc|]. split; [exact Hf|].
  exact (bracket_free_terminates (text "+>,.") (load (text "+>,.") fresh) 5 Hok Ho Hc Hf).
Defined.

(** ** The comment handler *)

Lemma prog_ok_set_pc (prog : list Z) (s : bfg) (i : Z) :
  prog_ok prog s → 0 ≤ i → prog_ok prog (set_pc i s).
Proof. intros (? & ? & ?) ?. by repeat split. Qed.

Lemma ignoreUntil_loop_total (prog : list Z) (n : nat) (until : Z) (s : bfg) :
  prog_ok prog s → ∃ s', ignoreUntil_loop n until s = Ok s'.
Proof.
  revert s. induction n as [|n IH]; intros s Hok; cbn; [eauto|].
  rewrite (instruction_current s prog Hok). cbn.
  case_bool_decide; [|eauto].
  destruct (pc s + 1 <? inslen s); [|eauto].
  apply IH. destruct Hok as (? & ? & ?). apply prog_ok_set_pc; [by repeat split | lia].
Qed.

(** X7.  The comment handler only moves the program counter, and only
    forward: it stops on the first newline at or after the current
    position, or, when there is none, at the end of the program (one past
    the current position when that is already outside the program); no
    position it passes holds a newline.  In a well-formed state it never
    raises. *)
Theorem ignoreUntil_stops_at_newline (s : bfg) :
  (∀ s', ignoreUntil None s = Ok s' →
     s' = set_pc (pc s') s
     ∧ pc s ≤ pc s'
     ∧ (instruction None s' = Ok (Some (sym "010"))
        ∨ (inslen s ≤ pc s' ∧ pc s' = Z.max (pc s + 1) (inslen s)))
     ∧ ∀ i, pc s ≤ i < pc s' → instruction None (set_pc i s) ≠ Ok (Some (sym "010")))
  ∧ (∀ prog, prog_ok prog s → ∃ s', ignoreUntil None s = Ok s').
Proof.
  split.
  - intros s' H. unfold ignoreUntil in H.
    apply ignoreUntil_loop_spec in H; [exact H | lia].
  - intros prog Hok. unfold ignoreUntil. by eapply ignoreUntil_loop_total.
Qed.

Lemma ignoreUntil_stops_at_newline_witness :
  prog_ok [sym "#"; sym "a"; sym "010"; sym "+"]
          (load [sym "#"; sym "a"; sym "010"; sym "+"] fresh)
  ∧ ∃ s', ignoreUntil None (load [sym "#"; sym "a"; sym "010"; sym "+"] fresh) = Ok s'
          ∧ pc s' = 2.
Proof.
  assert (Hok : prog_ok [sym "#"; sym "a"; sym "010"; sym "+"]
                        (load [sym "#"; sym "a"; sym "010"; sym "+"] fresh))
    by (by repeat split).
  split; [exact Hok|].
  destruct (ignoreUntil_stops_at_newline
              (load [sym "#"; sym "a"; sym "010"; sym "+"] fresh)) as [Hspec Htot].
  destruct (Htot _ Hok) as [s' Hs']. exists s'. split; [exact Hs'|].
  destruct (Hspec s' Hs') as (_ & _ & _ & _).
  revert Hs'. vm_compute. by intros [= <-].
Defined.

Lemma dbg_at_end (s : bfg) :
  instruction None s = Ok None → dbg false s = Ok (set_count (count s + 1) s).
Proof.
  intros Hi. unfold dbg. destruct (debug _); [|done].
  change (instruction None (set_count (count s + 1) s)) with (instruction None s).
  by rewrite Hi.
Qed.

(** X8.  A comment that no newline ends swallows the rest of the program
    and one position more: from a [#] with no newline at or after it, the
    step breaks the loop with the program counter at [inslen + 1], one past
    the end of the program (so that the first symbol of the next shell line
    is skipped); tape and loop table are untouched. *)
Theorem comment_runs_past_end (prog : list Z) (s : bfg) :
  prog_ok prog s →
  prog !! Z.to_nat (pc s) = Some (sym "#") →
  (∀ n, (Z.to_nat (pc s) ≤ n)%nat → prog !! n ≠ Some (sym "010")) →
  step s = Ok (true, set_pc (inslen s + 1) (set_count (count s + 1) s)).
Proof.
  intros Hok Hsharp Hnl.
  pose proof (instruction_current s prog Hok) as Hi. rewrite Hsharp in Hi.
  assert (Hin : pc s < inslen s).
  { destruct Hok as (_ & Hlen & Hpc).
    destruct (Z.lt_ge_cases (pc s) (inslen s)) as [|Hge]; [done|].
    rewrite lookup_ge_None_2 in Hsharp by lia. discriminate. }
  destruct (ignoreUntil_loop_total prog (S (Z.to_nat (inslen s - pc s))) (sym "010") s Hok)
    as [s1 Hs1].
  destruct (ignoreUntil_loop_spec _ _ _ _ (Nat.lt_succ_diag_r _) Hs1)
    as (Heq & Hle & Hstop & _).
  change (ignoreUntil_loop (S (Z.to_nat (inslen s - pc s))) (sym "010") s)
    with (ignoreUntil None s) in Hs1.
  assert (Hok1 : prog_ok prog s1).
  { rewrite Heq. apply prog_ok_set_pc; [done|]. destruct Hok as (_ & _ & ?). lia. }
  pose proof (instruction_current s1 prog Hok1) as Hi1.
  destruct Hstop as [Hstop | [Hge Hmax]].
  { rewrite Hi1 in Hstop. injection Hstop as Hstop. exfalso.
    apply (Hnl (Z.to_nat (pc s1))); [lia | done]. }
  assert (Hpc1 : pc s1 = inslen s) by lia.
  assert (Hs1' : s1 = set_pc (inslen s) s) by (by rewrite Heq, Hpc1).
  rewrite lookup_ge_None_2 in Hi1.
  2:{ destruct Hok as (_ & Hlen & _). lia. }
  unfold step, translate. rewrite Hi, bind_Ok.
  change (action (Some (sym "#"))) with (Some HignoreUntil). cbv beta iota.
  cbn [call]. rewrite Hs1, !bind_Ok. cbv beta iota.
  rewrite (dbg_at_end s1 Hi1), bind_Ok. subst s1. cbn.
  destruct (Z.ltb_spec (inslen s + 1) (inslen s)); [lia|]. done.
Qed.

Lemma comment_runs_past_end_witness :
  prog_ok (text "+#[") (set_pc 1 (load (text "+#[") fresh))
  ∧ text "+#[" !! Z.to_nat (pc (set_pc 1 (load (text "+#[") fresh))) = Some (sym "#")
  ∧ ∃ s', step (set_pc 1 (load (text "+#[") fresh)) = Ok (true, s') ∧ pc s' = 4.
Proof.
  assert (Hok : prog_ok (text "+#[") (set_pc 1 (load (text "+#[") fresh))) by (by repeat split).
  split; [exact Hok|]. split; [reflexivity|].
  eexists. split.
  - apply (comment_runs_past_end (text "+#[") _ Hok eq_refl).
    intros [|[|[|[|n]]]] Hn; cbn in *; (lia || discriminate).
  - reflexivity.
Defined.

(** ** Strict mode *)

(** X9.  In strict mode the tape never grows.  On a well-formed strict
    tape, a pointer move that succeeds leaves the cells and the capacity as
    they were and the pointer inside the tape; a move to the right from the
    last cell raises the Segfault "above the maximum"; and a forced reset
    in strict mode makes a well-formed tape of 30000 cells. *)
Theorem ptr_strict (s : bfg) :
  strict s = true →
  tape_ok s →
  (∀ s', ptr s = Ok s' →
     mem s' = mem s ∧ memlen s' = memlen s ∧ strict s' = true ∧ tape_ok s')
  ∧ (instruction None s = Ok (Some (sym ">")) → sr s + 1 = memlen s →
       ptr s = Raise (BrainFuckingGoneError
                        (Segfault (pc s) (Some (sym ">"))
                           "data pointer value above the maximum (strict mode: on)")))
  ∧ (instruction None s = Ok (Some (sym ">")) → sr s + 1 < memlen s →
       ptr s = Ok (set_sr (sr s + 1) s))
  ∧ (memlen (reset true s) = 30000 ∧ Z.of_nat (length (mem (reset true s))) = 30000
     ∧ tape_ok (reset true s)).
Proof.
  intros Hstrict [Hsr Hlen].
  assert (Hseg : ∀ d s', -1 ≤ d ≤ 1 → segflt (set_sr (sr s + d) s) = Ok s' →
                         s' = set_sr (sr s + d) s ∧ 0 ≤ sr s + d < memlen s).
  { intros d s' Hd. unfold segflt. cbn. rewrite Hstrict.
    destruct (Z.leb_spec (memlen s) (sr s + d)).
    - destruct (instruction None _); discriminate.
    - destruct (Z.ltb_spec (sr s + d) 0).
      + destruct (instruction None _); discriminate.
      + intros [= <-]. split; [done | lia]. }
  split; [|split; [|split]].
  - intros s'. unfold ptr.
    destruct (instruction None s) as [cur|e]; cbn; [|discriminate].
    repeat case_bool_decide; cbn.
    + intros H'. apply (Hseg (-1)) in H' as [-> ?]; [|lia].
      unfold tape_ok. cbn. repeat split; try done; lia.
    + intros H'. apply (Hseg 1) in H' as [-> ?]; [|lia].
      unfold tape_ok. cbn. repeat split; try done; lia.
    + intros H'. replace s with (set_sr (sr s + 0) s) in H' at 1
        by (rewrite Z.add_0_r; by destruct s).
      apply (Hseg 0) in H' as [-> ?]; [|lia].
      unfold tape_ok. cbn. repeat split; try done; lia.
  - intros Hi Hend. unfold ptr. rewrite Hi. cbn. decide_syms.
    unfold segflt. cbn. rewrite Hstrict.
    destruct (Z.leb_spec (memlen s) (sr s + 1)); [|lia].
    change (instruction None (set_sr (sr s + 1) s)) with (instruction None s).
    by rewrite Hi.
  - intros Hi Hin. unfold ptr. rewrite Hi. cbn. decide_syms.
    unfold segflt. cbn.
    destruct (Z.leb_spec (memlen s) (sr s + 1)); [lia|].
    by destruct (Z.ltb_spec (sr s + 1) 0); [lia|].
  - destruct (reset_fresh true s) as (_ & _ & _ & _ & _ & _ & _ & Hmem & Hml & Hok & _);
      [by left|].
    rewrite Hstrict in Hmem, Hml. split; [exact Hml|]. split; [|exact Hok].
    rewrite Hmem, length_replicate. unfold memmax. lia.
Qed.

Lemma ptr_strict_witness :
  strict on_right_strict_end = true
  ∧ tape_ok on_right_strict_end
  ∧ ptr on_right_strict_end
    = Raise (BrainFuckingGoneError
               (Segfault 0 (Some (sym ">"))
                  "data pointer value above the maximum (strict mode: on)")).
Proof.
  assert (Hok : tape_ok on_right_strict_end) by (repeat split; by vm_compute).
  split; [reflexivity|]. split; [exact Hok|].
  exact (proj1 (proj2 (ptr_strict on_right_strict_end eq_refl Hok)) eq_refl eq_refl).
Defined.

(** ** Cells are bytes *)

Lemma spec_wrap_range (v d : Z) :
  0 ≤ v ≤ 255 → -1 ≤ d ≤ 1 → 0 ≤ spec_wrap (v + d) ≤ 255.
Proof.
  intros Hv Hd. unfold spec_wrap.
  destruct (Z.ltb_spec (v + d) 0); [lia|].
  destruct (Z.ltb_spec 255 (v + d)); lia.
Qed.

Lemma tape_ok_index (s : bfg) :
  tape_ok s → py_index (Z.of_nat (length (mem s))) (sr s) = Ok (Z.to_nat (sr s)).
Proof.
  intros [Hsr _]. unfold py_index.
  destruct (Z.ltb_spec (sr s) 0); [lia|].
  destruct (Z.leb_spec 0 (sr s)); [|lia].
  by destruct (Z.ltb_spec (sr s) (Z.of_nat (length (mem s)))); [|lia].
Qed.

(** What [byte] computes, in one equation. *)
Lemma byte_eq (s : bfg) (v : Z) (cur : option Z) :
  tape_ok s → value s = Ok v → instruction None s = Ok cur →
  byte s = Ok (set_mem (<[Z.to_nat (sr s) :=
                           spec_wrap (v + (if decide (cur = Some (sym "-")) then -1
                                           else if decide (cur = Some (sym "+")) then 1
                                           else 0))]> (mem s)) s).
Proof.
  intros Hok Hv Hi. unfold byte. rewrite Hv, Hi. cbn.
  unfold value_set, list_assign. rewrite (tape_ok_index s Hok). cbn.
  eval_syms.
  repeat case_bool_decide; repeat case_decide; try congruence; cbn;
    rewrite ?Z.add_0_r; try (replace (v + -1) with (v - 1) by lia); reflexivity.
Qed.

(** X10.  [byte] keeps the tape a tape of bytes.  On a well-formed tape
    whose cells are all in 0..255, [byte] does not fail, leaves every cell
    in 0..255, changes no cell but the current one, and leaves pointer and
    capacity alone. *)
Theorem byte_keeps_cells (s : bfg) (cur : option Z) :
  tape_ok s →
  cells_ok s →
  instruction None s = Ok cur →
  ∃ s', byte s = Ok s'
        ∧ cells_ok s' ∧ tape_ok s'
        ∧ sr s' = sr s ∧ length (mem s') = length (mem s)
        ∧ ∀ i, i ≠ Z.to_nat (sr s) → mem s' !! i = mem s !! i.
Proof.
  intros Hok Hcells Hi.
  destruct (tape_ok_value s Hok) as (v & Hv & Hin).
  assert (Hrange : 0 ≤ v ≤ 255)
    by (unfold cells_ok in Hcells; rewrite Forall_forall in Hcells; by apply Hcells).
  eexists. split; [by apply (byte_eq s v cur)|].
  unfold cells_ok, tape_ok. cbn. rewrite length_insert.
  split; [|split; [exact Hok|]]; [|split; [done|]; split; [done|]].
  - apply Forall_insert; [done|].
    apply spec_wrap_range; [done|]. repeat case_decide; lia.
  - intros i Hne. by rewrite list_lookup_insert_ne.
Qed.

Lemma byte_keeps_cells_witness :
  tape_ok on_plus_at_255 ∧ cells_ok on_plus_at_255
  ∧ instruction None on_plus_at_255 = Ok (Some (sym "+"))
  ∧ ∃ s', byte on_plus_at_255 = Ok s' ∧ cells_ok s'.
Proof.
  assert (Hok : tape_ok on_plus_at_255) by (repeat split; by vm_compute).
  assert (Hc : cells_ok on_plus_at_255)
    by (repeat constructor; by vm_compute).
  split; [exact Hok|]. split; [exact Hc|]. split; [reflexivity|].
  destruct (byte_keeps_cells on_plus_at_255 (Some (sym "+")) Hok Hc eq_refl)
    as (s' & Hb & Hc' & _).
  exists s'. split; [exact Hb | exact Hc'].
Defined.

Lemma same_tape_value (s t : bfg) : same_tape s t → value t = value s.
Proof. intros (Hm & Hs & _). unfold value. by rewrite Hm, Hs. Qed.

(** X11.  Increment and decrement undo each other except at the two ends.
    On a byte cell [v], [-] followed by [+] gives [v] back unless [v] is 0
    (then it gives 255), and [+] followed by [-] gives [v] back unless [v] is
    255 (then it gives 254). *)
Theorem byte_undo (s s1 t s2 : bfg) (v : Z) :
  tape_ok s →
  value s = Ok v →
  0 ≤ v ≤ 255 →
  byte s = Ok s1 →
  same_tape s1 t →
  byte t = Ok s2 →
  (instruction None s = Ok (Some (sym "-")) → instruction None t = Ok (Some (sym "+")) →
     value s2 = Ok (if v =? 0 then 255 else v))
  ∧ (instruction None s = Ok (Some (sym "+")) → instruction None t = Ok (Some (sym "-")) →
       value s2 = Ok (if v =? 255 then 254 else v)).
Proof.
  intros Hok Hv Hrange Hb1 Hsame Hb2.
  assert (Hgo : ∀ c1 c2 d1 d2,
             instruction None s = Ok (Some c1) → instruction None t = Ok (Some c2) →
             (if decide (Some c1 = Some (sym "-")) then -1
              else if decide (Some c1 = Some (sym "+")) then 1 else 0) = d1 →
             (if decide (Some c2 = Some (sym "-")) then -1
              else if decide (Some c2 = Some (sym "+")) then 1 else 0) = d2 →
             value s2 = Ok (spec_wrap (spec_wrap (v + d1) + d2))).
  { intros c1 c2 d1 d2 Hi1 Hi2 Hd1 Hd2.
    rewrite (byte_eq s v _ Hok Hv Hi1), Hd1 in Hb1. injection Hb1 as <-.
    assert (Hok1 : tape_ok t).
    { eapply tape_ok_same; [exact Hsame|].
      destruct Hok as [? ?]. unfold tape_ok. cbn. by rewrite length_insert. }
    assert (Hv1 : value t = Ok (spec_wrap (v + d1))).
    { rewrite (same_tape_value _ t Hsame). unfold value, list_index. cbn.
      rewrite length_insert, (tape_ok_index s Hok). cbn.
      destruct Hok as [? _]. by rewrite list_lookup_insert_eq by lia. }
    rewrite (byte_eq t _ _ Hok1 Hv1 Hi2), Hd2 in Hb2. injection Hb2 as <-.
    unfold value, list_index. cbn. rewrite length_insert, (tape_ok_index t Hok1). cbn.
    destruct Hok1 as [? _]. by rewrite list_lookup_insert_eq by lia. }
  split; intros Hi1 Hi2.
  - rewrite (Hgo (sym "-") (sym "+") (-1) 1 Hi1 Hi2 eq_refl eq_refl).
    f_equal. unfold spec_wrap.
    destruct (Z.eqb_spec v 0) as [-> | Hne]; [done|].
    destruct (Z.ltb_spec (v + -1) 0); [lia|].
    destruct (Z.ltb_spec 255 (v + -1)); [lia|].
    destruct (Z.ltb_spec (v + -1 + 1) 0); [lia|].
    destruct (Z.ltb_spec 255 (v + -1 + 1)); lia.
  - rewrite (Hgo (sym "+") (sym "-") 1 (-1) Hi1 Hi2 eq_refl eq_refl).
    f_equal. unfold spec_wrap.
    destruct (Z.eqb_spec v 255) as [-> | Hne]; [done|].
    destruct (Z.ltb_spec (v + 1) 0); [lia|].
    destruct (Z.ltb_spec 255 (v + 1)); [lia|].
    destruct (Z.ltb_spec (v + 1 + -1) 0); [lia|].
    destruct (Z.ltb_spec 255 (v + 1 + -1)); lia.
Qed.

Lemma byte_undo_witness :
  tape_ok on_minus_plus
  ∧ value on_minus_plus = Ok 0
  ∧ byte on_minus_plus = Ok after_minus
  ∧ same_tape after_minus (set_pc 1 after_minus)
  ∧ byte (set_pc 1 after_minus) = Ok after_minus_plus
  ∧ instruction None on_minus_plus = Ok (Some (sym "-"))
  ∧ instruction None (set_pc 1 after_minus) = Ok (Some (sym "+"))
  ∧ value after_minus_plus = Ok 255.
Proof.
  assert (Hok : tape_ok on_minus_plus) by (repeat split; by vm_compute).
  assert (Hv : value on_minus_plus = Ok 0) by (vm_compute; reflexivity).
  assert (Hb1 : byte on_minus_plus = Ok after_minus) by (vm_compute; reflexivity).
  assert (Hsame : same_tape after_minus (set_pc 1 after_minus))
    by (vm_compute; by repeat split).
  assert (Hb2 : byte (set_pc 1 after_minus) = Ok after_minus_plus)
    by (vm_compute; reflexivity).
  assert (Hi1 : instruction None on_minus_plus = Ok (Some (sym "-")))
    by (vm_compute; reflexivity).
  assert (Hi2 : instruction None (set_pc 1 after_minus) = Ok (Some (sym "+")))
    by (vm_compute; reflexivity).
  assert (Hr : 0 ≤ 0 ≤ 255) by lia.
  split; [exact Hok|]. split; [exact Hv|]. split; [exact Hb1|]. split; [exact Hsame|].
  split; [exact Hb2|]. split; [exact Hi1|]. split; [exact Hi2|].
  exact (proj1 (byte_undo on_minus_plus after_minus (set_pc 1 after_minus) after_minus_plus 0
                  Hok Hv Hr Hb1 Hsame Hb2) Hi1 Hi2).
Defined.

(** ** Input, one character at a time *)

Lemma value_set_tape_ok (s : bfg) (w : Z) :
  tape_ok s →
  value_set w s = Ok (set_mem (<[Z.to_nat (sr s) := w]> (mem s)) s)
  ∧ value (set_mem (<[Z.to_nat (sr s) := w]> (mem s)) s) = Ok w.
Proof.
  intros Hok. unfold value_set, list_assign, value, list_index. cbn.
  rewrite length_insert, (tape_ok_index s Hok). cbn.
  destruct Hok as [? _]. by rewrite list_lookup_insert_eq by lia.
Qed.

Lemma str_index_head (c : Z) (r : list Z) : str_index (c :: r) 0 = Ok c.
Proof.
  unfold str_index, py_index. cbn [length].
  destruct (Z.ltb_spec 0 0); [lia|].
  destruct (Z.leb_spec 0 0); [|lia].
  destruct (Z.ltb_spec 0 (Z.of_nat (S (length r)))); [|lia]. done.
Qed.

Lemma inp_remain_eq (c : Z) (r : list Z) (s : bfg) :
  inp_remain (c :: r) s
  = Ok (true, if decide (r = [])
              then set_remain None (set_remain (Some r) (set_buf (Some [c]) s))
              else set_remain (Some r) (set_buf (Some [c]) s)).
Proof.
  unfold inp_remain. rewrite str_index_head, bind_Ok. cbn [str_tail].
  destruct r as [|d r]; [done|]. cbn [length].
  destruct (Z.eqb_spec (Z.of_nat (S (length r))) 0); [lia|].
  by rewrite decide_False.
Qed.

(** The input branch of [inout] when [inp] hands out the head of [c :: r]. *)
Lemma inout_takes_head (s : bfg) (c : Z) (r : list Z) :
  tape_ok s →
  instruction None s = Ok (Some (sym ",")) →
  inp (String "010" "?> ") false s = inp_remain (c :: r) s →
  ∃ s', inout s = Ok (false, s')
        ∧ value s' = Ok c
        ∧ remain s' = (if decide (r = []) then None else Some r)
        ∧ stdin s' = stdin s ∧ buf s' = None ∧ trace s' = trace s
        ∧ same_program s s' ∧ pc s' = pc s ∧ count s' = count s
        ∧ stdout s' = stdout s.
Proof.
  intros Hok Hi Hinp. unfold inout.
  rewrite Hi, bind_Ok. decide_syms. rewrite bind_Ok. decide_syms.
  rewrite Hinp, inp_remain_eq, bind_Ok. cbv beta iota. cbn [negb].
  set (s1 := if decide (r = []) then _ else _).
  assert (Hs1 : tape_ok s1 ∧ buf s1 = Some [c] ∧ stdin s1 = stdin s
                ∧ trace s1 = trace s
                ∧ remain s1 = (if decide (r = []) then None else Some r)
                ∧ same_program s s1 ∧ pc s1 = pc s ∧ count s1 = count s
                ∧ stdout s1 = stdout s).
  { subst s1. destruct Hok as [[? ?] ?].
    destruct (decide (r = [])); unfold tape_ok; cbn; by repeat split. }
  destruct Hs1 as (Hok1 & Hbuf & Hin1 & Htr1 & Hr1 & Hp1 & Hpc1 & Hc1 & Ho1).
  rewrite Hbuf. cbv beta iota. change (ord [c]) with (Ok c). rewrite bind_Ok.
  destruct (value_set_tape_ok s1 c Hok1) as [Hset Hval].
  rewrite Hset, bind_Ok. eexists. split; [reflexivity|]. cbn.
  split; [exact Hval|]. destruct Hp1 as (? & ? & ? & ? & ?). by repeat split.
Qed.

(** X12.  Input is taken a line at a time and handed out a character at a
    time.  On a well-formed tape, an input instruction with nothing
    buffered takes the next line, stores the code point of its first
    character in the current cell (whatever the code point: a cell can then
    hold more than 255) and buffers the rest of the line (nothing, when the
    line had one character); with characters buffered it stores the first
    of them and asks the line source for nothing.  The line buffer [buf] is
    cleared either way. *)
Theorem inout_reads_in_order (s : bfg) (c : Z) (r : list Z) :
  tape_ok s →
  instruction None s = Ok (Some (sym ",")) →
  (∀ lines, remain s = None → stdin s = (c :: r) :: lines →
     ∃ s', inout s = Ok (false, s')
           ∧ value s' = Ok c
           ∧ remain s' = (if decide (r = []) then None else Some r)
           ∧ stdin s' = lines ∧ buf s' = None ∧ trace s' = trace s)
  ∧ (remain s = Some (c :: r) →
     ∃ s', inout s = Ok (false, s')
           ∧ value s' = Ok c
           ∧ remain s' = (if decide (r = []) then None else Some r)
           ∧ stdin s' = stdin s ∧ buf s' = None ∧ trace s' = trace s).
Proof.
  intros Hok Hi. split.
  - intros lines Hr Hin.
    set (s0 := set_remain (Some (c :: r)) (set_stdin lines s)).
    assert (Hok0 : tape_ok s0) by exact Hok.
    assert (Hi0 : instruction None s0 = Ok (Some (sym ","))) by exact Hi.
    assert (Hinp0 : inp (String "010" "?> ") false s0 = inp_remain (c :: r) s0)
      by reflexivity.
    assert (Hinp : inp (String "010" "?> ") false s = inp_remain (c :: r) s0)
      by (unfold inp, input; by rewrite Hr, Hin).
    destruct (inout_takes_head s0 c r Hok0 Hi0 Hinp0)
      as (s' & Hio & Hv & Hrem & Hst & Hb & Htr & _).
    exists s'. split; [|by repeat split].
    rewrite <- Hio. unfold inout.
    change (instruction None s0) with (instruction None s).
    rewrite Hi, !bind_Ok. decide_syms. rewrite ?bind_Ok. decide_syms.
    by rewrite Hinp, Hinp0.
  - intros Hr. destruct (inout_takes_head s c r Hok Hi)
      as (s' & Hio & Hv & Hrem & Hst & Hb & Htr & _).
    { unfold inp. by rewrite Hr. }
    exists s'. by repeat split.
Qed.

Lemma inout_reads_in_order_witness :
  tape_ok on_comma_line_euro
  ∧ instruction None on_comma_line_euro = Ok (Some (sym ","))
  ∧ remain on_comma_line_euro = None
  ∧ stdin on_comma_line_euro = [[8364; 66]]
  ∧ ∃ s', inout on_comma_line_euro = Ok (false, s')
          ∧ value s' = Ok 8364 ∧ remain s' = Some [66] ∧ stdin s' = [].
Proof.
  assert (Hok : tape_ok on_comma_line_euro) by (vm_compute; by repeat split).
  split; [exact Hok|]. do 3 (split; [reflexivity|]).
  destruct (proj1 (inout_reads_in_order on_comma_line_euro 8364 [66] Hok eq_refl)
              [] eq_refl eq_refl) as (s' & Hio & Hv & Hr & Hin & _).
  exists s'. split; [exact Hio|]. split; [exact Hv|]. split; [exact Hr | exact Hin].
Defined.

(** ** Round trip through a cell *)

Lemma chr_code_point (c : Z) : 0 ≤ c ≤ 1114111 → chr c = Ok c.
Proof.
  intros Hc. unfold chr.
  destruct (Z.leb_spec 0 c); [|lia]. by destruct (Z.leb_spec c 1114111); [|lia].
Qed.

(** X13.  The program [,.] echoes the first character of the input line,
    whatever the code point [c] of that character (any of 0 to 1114111)
    and whatever follows it on the line: the run ends normally and has
    printed exactly that character. *)
Theorem comma_dot_echoes (c : Z) (r : list Z) (n : nat) :
  0 ≤ c ≤ 1114111 →
  ∃ s', run_script (text ",.") (2 + n) (set_stdin [c :: r] fresh) = Some (Ok s')
        ∧ printed s' = [c]
        ∧ remain s' = (if decide (r = []) then None else Some r).
Proof.
  intros Hc. pose proof (chr_code_point c Hc) as Hchr.
  destruct r as [|d r].
  - eexists. split; [|split].
    + cbv -[chr]. rewrite Hchr. cbv. reflexivity.
    + reflexivity.
    + reflexivity.
  - eexists. split; [|split].
    + cbv -[chr]. rewrite Hchr. cbv. reflexivity.
    + reflexivity.
    + reflexivity.
Qed.

Lemma comma_dot_echoes_witness :
  0 ≤ 8364 ≤ 1114111
  ∧ ∃ s', run_script (text ",.") 2 (set_stdin [[8364]] fresh) = Some (Ok s')
          ∧ printed s' = [8364] ∧ remain s' = None.
Proof.
  split; [lia|]. exact (comma_dot_echoes 8364 [] 0 ltac:(lia)).
Defined.

(** ** The shell at the end of its input *)

Lemma run_shell_line_eof (fuel : nat) (s : bfg) :
  stdin s = [] →
  run_shell_line fuel s = Some (Ok (set_ins None (emit (Prompt " > ") s))).
Proof.
  intros Hin. unfold run_shell_line, shell, inp, input. cbn. by rewrite Hin.
Qed.

(** X14.  End of input does not end the shell.  Once the line source is
    exhausted, a turn of the shell loop prints the prompt, executes nothing
    and forgets the program text ([ins] becomes [None]); any number of
    further turns succeed in the same way, with tape, program counter, loop
    table and step counter untouched. *)
Theorem shell_at_end_of_input (s : bfg) (n fuel : nat) :
  stdin s = [] →
  ∃ s', run_shell n fuel s = Some (Ok s')
        ∧ trace s' = (trace s ++ replicate n (Prompt " > "))%list
        ∧ (0 < n → ins s' = None)%nat
        ∧ same_tape s s' ∧ pc s' = pc s ∧ loops s' = loops s ∧ count s' = count s
        ∧ inslen s' = inslen s ∧ stdin s' = [].
Proof.
  revert s. induction n as [|n IH]; intros s Hin.
  - exists s. cbn. rewrite app_nil_r. repeat split; try done. lia.
  - cbn [run_shell]. rewrite (run_shell_line_eof fuel s Hin).
    destruct (IH (set_ins None (emit (Prompt " > ") s)) Hin)
      as (s' & Hrun & Htr & Hins & Htape & Hpc & Hl & Hc & Hlen & Hin').
    exists s'. split; [exact Hrun|]. cbn in *.
    split; [by rewrite Htr, <- app_assoc|].
    split.
    + intros _. destruct n as [|n]; [|apply Hins; lia].
      cbn in Hrun. by injection Hrun as <-.
    + destruct Htape as (? & ? & ? & ?). by repeat split.
Qed.

Lemma shell_at_end_of_input_witness :
  stdin (shell_start []) = []
  ∧ ∃ s', run_shell 3 0 (shell_start []) = Some (Ok s')
          ∧ trace s' = [Prompt " > "; Prompt " > "; Prompt " > "] ∧ ins s' = None.
Proof.
  split; [reflexivity|].
  destruct (shell_at_end_of_input (shell_start []) 3 0 eq_refl)
    as (s' & Hrun & Htr & Hins & _).
  exists s'. split; [exact Hrun|]. split; [exact Htr|]. apply Hins. lia.
Defined.

(** ** Script files *)

Example file_text_sample :
  file_text [[sym "#"; sym "!"; sym "010"];
             (text "++ # comment" ++ [sym "010"])%list;
             [sym " "; sym "009"; sym "+"; sym "010"];
             [160; 8195; sym "-"; 12288; sym "010"]]
  = text "++ +-".
Proof. reflexivity. Qed.

Lemma occurs_app (c : Z) (a b : list Z) :
  occurs c (a ++ b)%list ↔ occurs c a ∨ occurs c b.
Proof. unfold occurs. apply elem_of_app. Qed.

Lemma split_first_no_sep (sep : Z) (l : list Z) : ¬ occurs sep (split_first sep l).
Proof.
  unfold occurs. induction l as [|c l IH]; cbn; [apply not_elem_of_nil|].
  case_bool_decide; [apply not_elem_of_nil|].
  rewrite elem_of_cons. intros [-> | ?]; tauto.
Qed.

Lemma file_text_no_sharp (lines : list (list Z)) : ¬ occurs (sym "#") (file_text lines).
Proof.
  unfold file_text.
  induction (filter _ lines) as [|l ls IH]; [apply not_elem_of_nil|].
  rewrite fmap_cons. unfold join. cbn [foldr].
  rewrite occurs_app. intros [H | H]; [|by apply IH].
  by apply (split_first_no_sep (sym "#") (strip l)).
Qed.

Lemma foldl_file_text_no_sharp (paths : list (list (list Z))) (acc : list Z) :
  ¬ occurs (sym "#") acc →
  ¬ occurs (sym "#") (foldl (λ prog p, (prog ++ file_text p)%list) acc paths).
Proof.
  revert acc. induction paths as [|p paths IH]; intros acc Hacc; cbn; [done|].
  apply IH. rewrite occurs_app. intros [? | H]; [done|].
  by apply (file_text_no_sharp p).
Qed.

(** X15.  What [script] hands to the interpreter.  Without paths there is
    no program and nothing changes.  With paths, the program is built from
    the first file only unless the interpreter is persistent, its length is
    stored in [inslen] and nothing else changes, and the program contains
    no [#]: comments never reach the dispatcher from a file. *)
Theorem script_strips_comments (s : bfg) :
  script None s = (None, s)
  ∧ script (Some []) s = (None, s)
  ∧ (∀ f fs, keep s = false → script (Some (f :: fs)) s = script (Some [f]) s)
  ∧ (∀ f fs, ∃ prog,
       script (Some (f :: fs)) s
       = (Some prog, set_inslen (Z.of_nat (length prog)) s)
       ∧ ¬ occurs (sym "#") prog
       ∧ (∀ n, prog !! n ≠ Some (sym "#"))
       ∧ (keep s = false → prog = file_text f)).
Proof.
  split; [done|]. split; [done|]. split.
  - intros f fs Hk. unfold script. rewrite Hk. cbn [negb take]. by rewrite !take_0.
  - intros f fs. eexists. split; [reflexivity|].
    assert (Hno : ¬ occurs (sym "#")
                      (foldl (λ prog p, (prog ++ file_text p)%list) []
                         (if negb (keep s) then take 1 (f :: fs) else f :: fs)))
      by (apply foldl_file_text_no_sharp, not_elem_of_nil).
    split; [exact Hno|]. split.
    + intros n Hn. by apply Hno, (get_occurs _ n).
    + intros Hk. rewrite Hk. reflexivity.
Qed.

Lemma script_strips_comments_witness :
  keep fresh = false
  ∧ script (Some [[text "+ # one"; text "#two"; text "-"]; [text "."]]) fresh
    = (Some (text "+ -"), set_inslen 3 fresh).
Proof.
  split; [reflexivity|].
  destruct (script_strips_comments fresh) as (_ & _ & Hfirst & _).
  rewrite (Hfirst [text "+ # one"; text "#two"; text "-"] [[text "."]] eq_refl).
  reflexivity.
Defined.

(** ** Symmetry, when it holds *)

(** X16.  [registerLoop] keeps a symmetric loop table symmetric whenever
    the partner it finds is not in the table yet (the current position is
    not, since the handler resolves only unresolved positions). *)
Theorem registerLoop_keeps_symmetric (s s' : bfg) :
  symmetric (loops s) →
  loops s !! pc s = None →
  registerLoop s = Ok s' →
  (∀ m, loops s' !! pc s = Some m → loops s !! m = None) →
  symmetric (loops s').
Proof.
  intros Hsym Hpc Hreg Hfree.
  apply registerLoop_inv in Hreg as [m ->]. cbn in *.
  apply symmetric_insert_pair; [done | done |].
  destruct (decide (m = pc s)) as [-> | Hne]; [done|].
  apply Hfree. rewrite lookup_insert_ne by done. by rewrite lookup_insert_eq.
Qed.

Lemma registerLoop_keeps_symmetric_witness :
  symmetric (loops (load (text "[]") fresh))
  ∧ loops (load (text "[]") fresh) !! pc (load (text "[]") fresh) = None
  ∧ ∃ s', registerLoop (load (text "[]") fresh) = Ok s' ∧ symmetric (loops s').
Proof.
  assert (Hsym : symmetric (loops (load (text "[]") fresh))) by (intros a b; by vm_compute).
  assert (Hreg : ∃ s', registerLoop (load (text "[]") fresh) = Ok s')
    by (eexists; vm_compute; reflexivity).
  split; [exact Hsym|]. split; [reflexivity|].
  destruct Hreg as [s' Hreg]. exists s'. split; [exact Hreg|].
  apply (registerLoop_keeps_symmetric (load (text "[]") fresh) s' Hsym eq_refl Hreg).
  intros m _. reflexivity.
Defined.

(** ** An opening bracket, from scan to jump *)

Lemma loop_resolved (s : bfg) (m v : Z) (cur : option Z) :
  loops s !! pc s = Some m → value s = Ok v → instruction None s = Ok cur →
  loop s = Ok (if negb (xorb (negb (v =? 0)) (bool_decide (cur = Some (sym "]"))))
               then set_pc m s else s).
Proof.
  intros Hl Hv Hi. unfold loop. rewrite Hl, bind_Ok, Hv, bind_Ok, Hi, bind_Ok, Hl.
  by destruct (negb _).
Qed.

(** X17.  The first visit of an opening bracket.  In a state with a
    well-formed tape, when the bracket at the program counter is not
    resolved yet and its scan succeeds, the step records the pair and then
    continues just after the closing bracket if the current cell is 0 (the
    body is skipped), and at the next position otherwise; the tape is not
    touched. *)
Theorem opening_bracket_step (s s1 : bfg) (v : Z) :
  tape_ok s →
  0 ≤ pc s →
  value s = Ok v →
  instruction None s = Ok (Some (sym "[")) →
  loops s !! pc s = None →
  registerLoop s = Ok s1 →
  ∃ m s', loops s1 !! pc s = Some m ∧ loops s1 !! m = Some (pc s)
          ∧ pc s < m < inslen s
          ∧ step s = Ok (negb ((if v =? 0 then m else pc s) + 1 <? inslen s), s')
          ∧ pc s' = (if v =? 0 then m else pc s) + 1
          ∧ loops s' = loops s1 ∧ same_tape s s'.
Proof.
  intros Hok Hpos Hv Hi Hnone Hreg.
  destruct (registerLoop_opening s s1 Hi Hreg) as (m & Hm & Hsym & Hl1 & Hl2).
  destruct (loop_unresolved s s1 Hnone Hreg) as [_ Hlp].
  pose proof Hreg as Hinv. apply registerLoop_inv in Hinv as [m' Hs1].
  assert (Hv1 : value s1 = Ok v) by (by rewrite Hs1).
  assert (Hi1 : instruction None s1 = Ok (Some (sym "["))) by (by rewrite Hs1).
  assert (Hpc1 : pc s1 = pc s) by (by rewrite Hs1).
  assert (Hlen1 : inslen s1 = inslen s) by (by rewrite Hs1).
  assert (Htape1 : same_tape s s1) by (rewrite Hs1; by repeat split).
  rewrite <- Hpc1 in Hl1.
  rewrite (loop_resolved s1 m v _ Hl1 Hv1 Hi1) in Hlp.
  rewrite bool_decide_eq_false_2 in Hlp by done.
  exists m.
  assert (Hm0 : instruction None (set_pc m s1) = Ok (Some (sym "]"))).
  { rewrite <- Hsym, Hs1. unfold instruction. cbn.
    by destruct (Z.eqb_spec m 0); [lia|]. }
  set (t := if v =? 0 then set_pc m s1 else s1).
  assert (Ht : loop s = Ok t) by (rewrite Hlp; subst t; by destruct (v =? 0)).
  assert (Hti : ∃ c, instruction None t = Ok (Some c))
    by (subst t; destruct (v =? 0); eauto).
  destruct Hti as [c Hti].
  assert (Htv : value t = Ok v) by (subst t; by destruct (v =? 0)).
  destruct (dbg_false_Ok t c v Hti Htv) as (t' & Hd & Hpc' & Hlen' & Htape' & Hl').
  exists (set_pc (pc t' + 1) t').
  assert (Hpct : pc t = if v =? 0 then m else pc s)
    by (subst t; destruct (v =? 0); [done | exact Hpc1]).
  assert (Hlent : inslen t = inslen s) by (subst t; by destruct (v =? 0)).
  assert (Hlt : loops t = loops s1) by (subst t; by destruct (v =? 0)).
  assert (Htt : same_tape s1 t) by (subst t; destruct (v =? 0); by repeat split).
  rewrite Hpc1 in Hl1.
  split; [done|]. split; [done|]. split; [done|]. split.
  - unfold step, translate. rewrite Hi, bind_Ok.
    change (action (Some (sym "["))) with (Some Hloop). cbv beta iota. cbn [call].
    rewrite Ht, !bind_Ok. cbv beta iota. rewrite Hd, bind_Ok. cbn.
    by rewrite Hpc', Hlen', Hpct, Hlent.
  - cbn. rewrite Hpc', Hpct, Hl', Hlt. split; [done|]. split; [done|].
    unfold same_tape in *. cbn.
    destruct Htape1 as (? & ? & ? & ?), Htt as (? & ? & ? & ?), Htape' as (? & ? & ? & ?).
    repeat split; congruence.
Qed.

Lemma opening_bracket_step_witness :
  tape_ok (load (text "[-]+") fresh)
  ∧ 0 ≤ pc (load (text "[-]+") fresh)
  ∧ value (load (text "[-]+") fresh) = Ok 0
  ∧ instruction None (load (text "[-]+") fresh) = Ok (Some (sym "["))
  ∧ loops (load (text "[-]+") fresh) !! pc (load (text "[-]+") fresh) = None
  ∧ (∃ s1, registerLoop (load (text "[-]+") fresh) = Ok s1)
  ∧ ∃ s', step (load (text "[-]+") fresh) = Ok (false, s') ∧ pc s' = 3.
Proof.
  assert (Hok : tape_ok (load (text "[-]+") fresh)) by (vm_compute; by repeat split).
  assert (Hreg : ∃ s1, registerLoop (load (text "[-]+") fresh) = Ok s1)
    by (eexists; vm_compute; reflexivity).
  assert (Hpos : 0 ≤ pc (load (text "[-]+") fresh)) by (by vm_compute).
  split; [exact Hok|]. split; [exact Hpos|].
  do 3 (split; [reflexivity|]). split; [exact Hreg|].
  destruct Hreg as [s1 Hreg].
  destruct (opening_bracket_step (load (text "[-]+") fresh) s1 0 Hok Hpos eq_refl eq_refl eq_refl Hreg)
    as (m & s' & Hl & _ & Hm & Hstep & Hpc & _).
  assert (m = 2) as ->.
  { revert Hreg Hl. vm_compute. intros [= <-]. vm_compute. by intros [= <-]. }
  exists s'. split; [exact Hstep | exact Hpc].
Defined.

(** ** Delayed output *)

Lemma printed_emit (e : event) (s : bfg) :
  printed (emit e s)
  = (printed s ++ match e with Print c _ => [c] | _ => [] end)%list.
Proof. unfold printed. cbn. rewrite omap_app. by destruct e. Qed.

Lemma dbg_printed (report : bool) (s s' : bfg) :
  dbg report s = Ok s' → printed s' = printed s.
Proof.
  unfold dbg. set (s0 := set_count (count s + 1) s).
  assert (Hs0 : ∀ u, u = s0 ∨ (∃ a b c d, u = emit (TraceStep a b c d) s0)
                       ∨ (∃ a b c, u = emit (Report a b c) s0) →
                     printed u = printed s).
  { intros u [-> | [(a & b & c & d & ->) | (a & b & c & ->)]]; [done|..];
      rewrite printed_emit; cbn; by rewrite app_nil_r. }
  destruct (debug s0); [destruct report|].
  - intros [= <-]. apply Hs0. right. right. eauto.
  - destruct (instruction None s0) as [[c|]|e]; cbn; try discriminate.
    + destruct (value s0) as [v|e]; cbn; [|discriminate].
      intros [= <-]. apply Hs0. right. left. eauto.
    + intros [= <-]. apply Hs0. by left.
  - intros [= <-]. apply Hs0. by left.
Qed.

Lemma inout_delayed (s s' : bfg) (b : bool) (acc : list Z) :
  debug s = true → stdout s = Some acc →
  inout s = Ok (b, s') →
  trace s' = trace s ∧ ∃ more, stdout s' = Some (acc ++ more)%list.
Proof.
  intros Hd Hout. unfold inout.
  set (r := inp _ false s). assert (Hr : inp (String "010" "?> ") false s = r) by done.
  clearbody r.
  destruct (instruction None s) as [cur|e]; cbn; [|discriminate].
  case_bool_decide.
  - destruct (value s) as [v|e]; cbn; [|discriminate].
    destruct (chr v) as [o|e]; cbn; [|discriminate].
    rewrite Hd, Hout. intros [= _ <-]. split; [done|]. by exists [o].
  - case_bool_decide.
    + destruct r as [[got s1]|e]; cbn; [|discriminate].
      apply inp_inv in Hr as (_ & _ & _ & _ & _ & Htr & _ & _ & Hout1).
      destruct got; cbn.
      * destruct (buf s1) as [bf|]; [|discriminate].
        destruct (ord bf) as [c|e]; cbn; [|discriminate].
        destruct (value_set c s1) as [s2|e] eqn:Hv; cbn; [|discriminate].
        intros [= _ <-]. apply value_set_inv in Hv as (n & _ & ->). cbn.
        split; [done|]. exists []. by rewrite app_nil_r, Hout1.
      * intros [= _ <-]. split; [done|]. exists []. by rewrite app_nil_r, Hout1.
    + intros [= _ <-]. split; [done|]. exists []. by rewrite app_nil_r.
Qed.

Lemma call_delayed (h : handler) (s s' : bfg) (b : bool) (acc : list Z) :
  debug s = true → stdout s = Some acc →
  call h s = Ok (b, s') →
  trace s' = trace s ∧ ∃ more, stdout s' = Some (acc ++ more)%list.
Proof.
  intros Hd Hout.
  assert (Hsame : ∀ t, trace t = trace s → stdout t = stdout s →
                       trace t = trace s ∧ ∃ more, stdout t = Some (acc ++ more)%list).
  { intros t ? Ho. split; [done|]. exists []. by rewrite app_nil_r, Ho. }
  destruct h; cbn [call].
  - destruct (loop s) as [s1|e] eqn:Hl; cbn; [|discriminate]. intros [= _ <-].
    apply loop_inv in Hl as (_ & _ & _ & ? & _ & _ & ? & _). by apply Hsame.
  - destruct (ptr s) as [s1|e] eqn:Hp; cbn; [|discriminate]. intros [= _ <-].
    apply ptr_inv in Hp as (_ & _ & _ & _ & ? & _ & _ & ?). by apply Hsame.
  - destruct (byte s) as [s1|e] eqn:Hb; cbn; [|discriminate]. intros [= _ <-].
    apply byte_inv in Hb as (_ & _ & _ & _ & _ & ? & _ & _ & ? & _). by apply Hsame.
  - by apply inout_delayed.
  - destruct (ignoreUntil None s) as [s1|e] eqn:Hi; cbn; [|discriminate]. intros [= _ <-].
    apply ignoreUntil_inv in Hi as (Heq & _). rewrite Heq. by apply Hsame.
Qed.

Lemma step_delayed (s s' : bfg) (b : bool) (acc : list Z) :
  debug s = true → stdout s = Some acc →
  step s = Ok (b, s') →
  printed s' = printed s ∧ ∃ more, stdout s' = Some (acc ++ more)%list.
Proof.
  intros Hd Hout. unfold step, translate.
  destruct (instruction None s) as [cur|e]; cbn; [|discriminate].
  assert (Hcall : ∀ stop s1,
             (match action cur with Some h => call h s | None => Ok (false, s) end)
             = Ok (stop, s1) →
             trace s1 = trace s ∧ ∃ more, stdout s1 = Some (acc ++ more)%list).
  { intros stop s1. destruct (action cur) as [h|].
    - by apply call_delayed.
    - intros [= _ <-]. split; [done|]. exists []. by rewrite app_nil_r. }
  destruct (match action cur with Some h => call h s | None => Ok (false, s) end)
    as [[stop s1]|e]; cbn; [|discriminate].
  destruct (Hcall stop s1 eq_refl) as (Htr & more & Hout1). clear Hcall.
  assert (Hp1 : printed s1 = printed s) by (unfold printed; by rewrite Htr).
  destruct stop.
  - intros [= _ <-]. split; [done|]. by exists more.
  - destruct (dbg false s1) as [s2|e] eqn:Hdbg; cbn; [|discriminate].
    intros [= _ <-]. pose proof (dbg_printed _ _ _ Hdbg) as Hp2.
    apply dbg_frame in Hdbg as (_ & _ & _ & _ & _ & _ & _ & Hout2).
    split; [unfold printed in *; cbn; congruence|].
    exists more. cbn. by rewrite Hout2.
Qed.

(** X18.  Delayed output.  When tracing is on and the output accumulator
    is in use (a traced batch run), an execution prints none of the
    program's output: whatever the program, the characters printed are the
    ones printed before, and the accumulator is only extended. *)
Theorem traced_output_is_delayed (fuel : nat) (s s' : bfg) (acc : list Z) :
  debug s = true →
  stdout s = Some acc →
  execute false fuel s = Some (Ok s') →
  printed s' = printed s ∧ ∃ more, stdout s' = Some (acc ++ more)%list.
Proof.
  intros Hd Hout.
  assert (Hloop : ∀ t, execute_loop fuel s = Some (Ok t) →
                       printed t = printed s ∧ ∃ more, stdout t = Some (acc ++ more)%list).
  { revert s acc Hd Hout. induction fuel as [|fuel IH]; intros s acc Hd Hout t; cbn;
      [discriminate|].
    destruct (step s) as [[[] s1]|e] eqn:Hstep; try discriminate.
    - intros [= <-]. by eapply step_delayed.
    - intros Hrec.
      pose proof (step_inv _ _ _ Hstep) as ((_ & _ & Hd1 & _) & _).
      destruct (step_delayed _ _ _ acc Hd Hout Hstep) as (Hp1 & more1 & Hout1).
      destruct (IH s1 (acc ++ more1)%list) with (t := t) as (Hp & more & Ho);
        [congruence | done | done |].
      split; [congruence|]. exists (more1 ++ more)%list. by rewrite app_assoc. }
  unfold execute.
  destruct (execute_loop fuel s) as [[t|e]|]; cbn; try discriminate.
  destruct (Hloop t eq_refl) as (Hp & more & Ho).
  rewrite dbg_report. cbn. intros [= <-].
  assert (Hrep : printed (reported t) = printed t ∧ stdout (reported t) = stdout t).
  { unfold reported. cbn. destruct (debug t); [|done].
    rewrite printed_emit. cbn. by rewrite app_nil_r. }
  destruct Hrep as (Hp' & Ho').
  assert (Hres : printed (reset false (reported t)) = printed (reported t)
                 ∧ stdout (reset false (reported t)) = stdout (reported t)).
  { unfold reset. destruct (_ || _); done. }
  destruct Hres as (Hp'' & Ho'').
  split; [congruence|]. exists more. congruence.
Qed.

Lemma traced_output_is_delayed_witness :
  debug traced_plus_dot = true
  ∧ stdout traced_plus_dot = Some []
  ∧ ∃ s', execute false 2 traced_plus_dot = Some (Ok s')
          ∧ printed s' = [] ∧ stdout s' = Some [1].
Proof.
  do 2 (split; [reflexivity|]).
  assert (Hex : ∃ s', execute false 2 traced_plus_dot = Some (Ok s') ∧ stdout s' = Some [1])
    by (eexists; split; vm_compute; reflexivity).
  destruct Hex as (s' & Hex & Hout). exists s'. split; [exact Hex|].
  split; [|exact Hout].
  exact (proj1 (traced_output_is_delayed 2 traced_plus_dot s' [] eq_refl eq_refl Hex)).
Defined.

(** ** A turn of the batch loop *)

(** Without persistence a turn runs the stripped text of the first file
    and leaves the other files to the next turns. *)
Lemma run_files_first (f : list (list Z)) (fs : list (list (list Z))) (fuel : nat)
  (s : bfg) :
  keep s = false →
  run_files (f :: fs) fuel s = (run_script (file_text f) fuel s, fs).
Proof.
  intros Hk. unfold run_files, script, run_script, load. rewrite Hk.
  cbn [negb take foldl drop]. by rewrite take_0, drop_0.
Qed.
